(** * Verification of [dist/src/util/utils.js] (deepstream.io client utilities)

    The development is a shallow embedding of the utility functions of
    [utils.js] together with models of the platform facilities they call:
    the [url] module ([URL.parse], [URL.format]), [JSON.stringify] and
    [JSON.parse], and the regular expressions of the file.

    Conventions of the embedding.
    - A JavaScript string is a [string]: a sequence of code units below 256.
    - A call either returns a value or throws: [JS.outcome].
    - The [url] module is not part of the file.  Its model follows
      [lib/url.js] of Node.js 8 and 10, and what differs between the
      versions of the module is a parameter ([URL.Platform]): whether the
      table of slashed protocols holds ws and wss (it does from Node.js 12
      on, and then the URL object of [ws://host] has the [pathname] [/] and
      line 158 of [utils.js] never takes the default path), whether tabs
      and line ends are taken out of the authority (Node.js 18 and later),
      the IDNA conversion of host names, [decodeURIComponent] and the
      escaping of the user information.  Which code units count as white
      space at the ends of the input and which are valid in a host name
      are as in Node.js 8 and 10.
    - A JavaScript value is a tree: arrays and objects carry an identity,
      which [===] compares, and their contents; numbers are integers.
      [JSON.stringify] is a printer of JSON texts and [JSON.parse] a reader
      of them followed by the construction of new arrays and objects.
    - The two timer wrappers run on a small machine with a call stack. *)

From Stdlib Require Import String Ascii List ZArith NArith Lia Bool Arith.
From Stdlib Require Import Decimal DecimalString DecimalN DecimalPos.
Import ListNotations.
#[local] Set Warnings "-register-all".
Local Open Scope string_scope.

(** ** JavaScript strings and completions *)

Module JS.

Inductive exn : Type :=
| Error (message : string)
| URIError
| TypeError
| SyntaxError
| HostNameError.

(** [HostNameError] is what [URL.parse] throws when the host name cannot be
    converted: the [Error] "Cannot convert name to ASCII" of Node.js 8 and
    10, [ERR_INVALID_URL] later. *)

(** A call returns a value or throws.  [Uncovered] marks a call that leaves
    the fragment of JavaScript described by the embedding (a number with a
    fraction, a code unit above 255): nothing is said about it. *)
Inductive outcome (A : Type) : Type :=
| Return (a : A)
| Throw (e : exn)
| Uncovered.

Arguments Return {A} a.
Arguments Throw {A} e.
Arguments Uncovered {A}.

Definition bind {A B} (m : outcome A) (k : A -> outcome B) : outcome B :=
  match m with
  | Return a => k a
  | Throw e => Throw e
  | Uncovered => Uncovered
  end.

Definition charCode (c : ascii) : N := N_of_ascii c.

Definition codeIn (lo hi : N) (c : ascii) : bool :=
  ((lo <=? charCode c) && (charCode c <=? hi))%N.

Definition codeIs (n : N) (c : ascii) : bool := (charCode c =? n)%N.

(** Truthiness of a string, and of a property that is [null] or a string. *)
Definition nonEmpty (s : string) : bool :=
  match s with
  | EmptyString => false
  | String _ _ => true
  end.

Definition truthy (o : option string) : bool :=
  match o with
  | Some s => nonEmpty s
  | None => false
  end.

(** [o || ''] *)
Definition orEmpty (o : option string) : string :=
  match o with
  | Some s => s
  | None => ""
  end.

Fixpoint all (p : ascii -> bool) (s : string) : bool :=
  match s with
  | EmptyString => true
  | String c r => p c && all p r
  end.

Fixpoint any (p : ascii -> bool) (s : string) : bool :=
  match s with
  | EmptyString => false
  | String c r => p c || any p r
  end.

Fixpoint mapStr (f : ascii -> ascii) (s : string) : string :=
  match s with
  | EmptyString => EmptyString
  | String c r => String (f c) (mapStr f r)
  end.

(** [flatMap f s] replaces every code unit [c] of [s] by the string [f c]. *)
Fixpoint flatMap (f : ascii -> string) (s : string) : string :=
  match s with
  | EmptyString => EmptyString
  | String c r => f c ++ flatMap f r
  end.

(** [s.slice(n)] for [0 <= n]. *)
Fixpoint drop (n : nat) (s : string) : string :=
  match n, s with
  | O, _ => s
  | S _, EmptyString => EmptyString
  | S m, String _ r => drop m r
  end.

(** [s.slice(0, n)] for [0 <= n]. *)
Fixpoint take (n : nat) (s : string) : string :=
  match n, s with
  | O, _ => EmptyString
  | S _, EmptyString => EmptyString
  | S m, String c r => String c (take m r)
  end.

(** [s.slice(a, b)] for [0 <= a], [0 <= b]. *)
Definition slice (a b : nat) (s : string) : string := take (b - a) (drop a s).

(** [break p s] splits [s] in front of its first code unit satisfying [p]. *)
Fixpoint break (p : ascii -> bool) (s : string) : string * string :=
  match s with
  | EmptyString => (EmptyString, EmptyString)
  | String c r =>
      if p c then (EmptyString, s)
      else let '(a, b) := break p r in (String c a, b)
  end.

(** [s.indexOf(p) === 0], and the anchored alternatives of a regular
    expression such as [/^http:/]. *)
Definition startsWith (p s : string) : bool := String.prefix p s.

Fixpoint endsWithChar (c : ascii) (s : string) : bool :=
  match s with
  | EmptyString => false
  | String d EmptyString => Ascii.eqb c d
  | String _ r => endsWithChar c r
  end.

Definition isDigit : ascii -> bool := codeIn 48 57.
Definition isLower : ascii -> bool := codeIn 97 122.
Definition isUpper : ascii -> bool := codeIn 65 90.

(** [String.prototype.toLowerCase] on code units below 256: the letters A-Z
    and the Latin-1 capitals (U+00C0 to U+00DE but U+00D7). *)
Definition lowerChar (c : ascii) : ascii :=
  if isUpper c || (codeIn 192 222 c && negb (codeIs 215 c))
  then ascii_of_N (charCode c + 32)
  else c.

Definition toLowerCase : string -> string := mapStr lowerChar.

End JS.

Import JS.

(** ** The [url] module: [URL.parse] and [URL.format] *)

Module URL.

(** What the platform decides is a parameter of the model:
    [slashedWs], whether the table of slashed protocols holds ws and wss
    (Node.js 12 and later); [stripsTabs], whether tabs and line ends are
    taken out of the authority (Node.js 18 and later); [idna], the IDNA
    conversion of a host name ([None] when it fails and [URL.parse]
    throws); [decodeURIComponent] (which throws [URIError], here [None], on
    a malformed escape); and the percent-encoding of the user information
    when a URL is written back. *)
Record Platform : Type := {
  slashedWs : bool;
  stripsTabs : bool;
  idna : string -> option string;
  decodeURIComponent : string -> option string;
  encodeAuth : string -> string
}.

(** The URL object: every property is [null] (here [None]) or a string;
    [slashes] is [null] or [true]. *)
Record Url : Type := {
  protocol : option string;
  slashes : bool;
  auth : option string;
  host : option string;
  port : option string;
  hostname : option string;
  hash : option string;
  search : option string;
  query : option string;
  pathname : option string;
  path : option string;
  href : option string
}.

Definition setProtocol (v : option string) (u : Url) : Url :=
  {| protocol := v; slashes := slashes u; auth := auth u; host := host u;
     port := port u; hostname := hostname u; hash := hash u;
     search := search u; query := query u; pathname := pathname u;
     path := path u; href := href u |}.

Definition setPathname (v : option string) (u : Url) : Url :=
  {| protocol := protocol u; slashes := slashes u; auth := auth u;
     host := host u; port := port u; hostname := hostname u; hash := hash u;
     search := search u; query := query u; pathname := v;
     path := path u; href := href u |}.

Definition setHref (v : option string) (u : Url) : Url :=
  {| protocol := protocol u; slashes := slashes u; auth := auth u;
     host := host u; port := port u; hostname := hostname u; hash := hash u;
     search := search u; query := query u; pathname := pathname u;
     path := path u; href := v |}.

(** *** Tables and patterns of the module *)

Definition inTable (table : list string) (key : option string) : bool :=
  match key with
  | Some k => existsb (String.eqb k) table
  | None => false
  end.

Definition hostlessProtocol : option string -> bool :=
  inTable ["javascript"; "javascript:"].

Definition unsafeProtocol : option string -> bool :=
  inTable ["javascript"; "javascript:"].

Definition slashedProtocol (pf : Platform) (key : option string) : bool :=
  inTable ["http"; "http:"; "https"; "https:"; "ftp"; "ftp:";
           "gopher"; "gopher:"; "file"; "file:"] key
  || (slashedWs pf && inTable ["ws"; "ws:"; "wss"; "wss:"] key).

Definition hostnameMaxLen : nat := 255.

(** White space removed from both ends of the input: space, tab, carriage
    return, line feed, form feed and no-break space. *)
Definition isTrimmed (c : ascii) : bool :=
  codeIs 32 c || codeIs 9 c || codeIs 13 c || codeIs 10 c || codeIs 12 c
  || codeIs 160 c.

(** The class [\s] of regular expressions, on code units below 256. *)
Definition isRegSpace (c : ascii) : bool :=
  codeIn 9 13 c || codeIs 32 c || codeIs 160 c.

Fixpoint trimStart (s : string) : string :=
  match s with
  | EmptyString => EmptyString
  | String c r => if isTrimmed c then trimStart r else s
  end.

Fixpoint trimEnd (s : string) : string :=
  match s with
  | EmptyString => EmptyString
  | String c r =>
      match trimEnd r with
      | EmptyString => if isTrimmed c then EmptyString else String c EmptyString
      | r' => String c r'
      end
  end.

Definition trim (s : string) : string := trimEnd (trimStart s).

Definition isSplit (c : ascii) : bool := codeIs 35 c || codeIs 63 c.

(** Back slashes in front of the first [?] or [#] become forward slashes. *)
Fixpoint convertBackslashes (s : string) : string :=
  match s with
  | EmptyString => EmptyString
  | String c r =>
      if isSplit c then s
      else String (if codeIs 92 c then "/"%char else c) (convertBackslashes r)
  end.

(** [simplePathPattern]: one or two slashes not followed by a third, then
    no white space up to the end; the first group stops in front of the
    first question mark and the second group is the remainder.  The second
    group is empty when it did not take part in the match. *)
Definition simplePathPattern (rest : string) : option (string * string) :=
  if startsWith "/" rest && negb (startsWith "///" rest)
     && negb (any isRegSpace rest)
  then Some (break (codeIs 63) rest)
  else None.

Definition isProtocolChar (c : ascii) : bool :=
  isLower c || isUpper c || isDigit c || codeIs 46 c || codeIs 43 c
  || codeIs 45 c.

(** [protocolPattern]: at the start, one or more letters, digits, dots,
    plus or minus signs, then a colon, case-insensitively.  The result is the
    match and what follows it. *)
Definition protocolPattern (rest : string) : option (string * string) :=
  match break (fun c => negb (isProtocolChar c)) rest with
  | (String c name, String d after) =>
      if codeIs 58 d then Some (String c name ++ ":", after) else None
  | _ => None
  end.

Definition isAtOrSlash (c : ascii) : bool := codeIs 64 c || codeIs 47 c.

(** [hostPattern]: two slashes, one or more code units other than an at
    sign and a slash, an at sign, and one more such code unit. *)
Definition hostPattern (rest : string) : bool :=
  match rest with
  | String a (String b r) =>
      codeIs 47 a && codeIs 47 b &&
      match break isAtOrSlash r with
      | (String _ _, String d (String e _)) =>
          codeIs 64 d && negb (isAtOrSlash e)
      | _ => false
      end
  | _ => false
  end.

(** Code units that end the host: [#], [/] and [?]. *)
Definition isHostEnding (c : ascii) : bool :=
  codeIs 35 c || codeIs 47 c || codeIs 63 c.

(** Code units that are never part of a host name: tab, line feed, carriage
    return, space, double and single quote, percent sign, semicolon, angle
    brackets, back slash, circumflex, grave accent, curly brackets and
    vertical bar. *)
Definition isNeverHost (c : ascii) : bool :=
  codeIs 9 c || codeIs 10 c || codeIs 13 c || codeIs 32 c || codeIs 34 c
  || codeIs 37 c || codeIs 39 c || codeIs 59 c || codeIs 60 c || codeIs 62 c
  || codeIs 92 c || codeIs 94 c || codeIs 96 c || codeIs 123 c
  || codeIs 124 c || codeIs 125 c.

(** Where the platform does so, the loop below first takes every tab, line
    feed and carriage return out of what it reads: the code units in front
    of the first host-ending code unit. *)
Definition isTabOrLineEnd (c : ascii) : bool :=
  codeIs 9 c || codeIs 10 c || codeIs 13 c.

Fixpoint stripInHost (rest : string) : string :=
  match rest with
  | EmptyString => EmptyString
  | String c r =>
      if isHostEnding c then rest
      else if isTabOrLineEnd c then stripInHost r
      else String c (stripInHost r)
  end.

(** The loop that looks for the end of the authority: it returns the index
    of the last [@] seen ([atSign]) and the index where the host stops
    ([nonHost]); the loop ends at the first host-ending code unit. *)
Fixpoint scanHost (rest : string) (i : nat) (atSign nonHost : option nat)
  : option nat * option nat :=
  match rest with
  | EmptyString => (atSign, nonHost)
  | String c r =>
      if isHostEnding c then
        (atSign, match nonHost with Some n => Some n | None => Some i end)
      else if isNeverHost c then
        scanHost r (S i) atSign
                 (match nonHost with Some n => Some n | None => Some i end)
      else if codeIs 64 c then scanHost r (S i) (Some i) None
      else scanHost r (S i) atSign nonHost
  end.

(** [portPattern]: a colon followed by digits only up to the end; the
    result is the index where the match starts. *)
Fixpoint portPattern (s : string) : option nat :=
  match s with
  | EmptyString => None
  | String c r =>
      if codeIs 58 c && all isDigit r then Some 0
      else option_map S (portPattern r)
  end.

(** [parseHost]: the port, when one is written, and the host name. *)
Definition parseHost (h : string) : option string * option string :=
  match portPattern h with
  | Some i =>
      let p := drop i h in
      let h' := take i h in
      (if String.eqb p ":" then None else Some (drop 1 p),
       if nonEmpty h' then Some h' else None)
  | None => (None, if nonEmpty h then Some h else None)
  end.

Definition isValidHostChar (c : ascii) : bool :=
  isLower c || codeIs 46 c || isUpper c || isDigit c || codeIs 45 c
  || codeIs 43 c || codeIs 95 c || (127 <? charCode c)%N.

(** [getHostname]: the host name is cut at its first invalid code unit and
    what was cut goes to the front of the rest, behind a slash. *)
Definition getHostname (rest hostname : string) : string * string :=
  match break (fun c => negb (isValidHostChar c)) hostname with
  | (_, EmptyString) => (hostname, rest)
  | (valid, invalid) => (valid, "/" ++ invalid ++ rest)
  end.

(** Host names that every IDNA conversion (punycode.js, ICU strict or
    lenient) returns as they are: labels of 1 to 63 lower-case letters and
    digits, separated by dots, 253 code units at most; and the empty host
    name.  [plainLabels s n] reads [s] behind [n] code units of a label. *)
Fixpoint plainLabels (s : string) (n : nat) : bool :=
  match s with
  | EmptyString => (0 <? n)%nat
  | String c r =>
      if codeIs 46 c then (0 <? n)%nat && plainLabels r 0
      else (isLower c || isDigit c) && (n <? 63)%nat && plainLabels r (S n)
  end.

Definition plainHost (hostname : string) : bool :=
  match hostname with
  | EmptyString => true
  | _ => plainLabels hostname 0 && (String.length hostname <=? 253)%nat
  end.

(** [toASCII(hostname)]: the conversion of the platform, which leaves a
    plain host name as it is.  What it does to any other host name, one
    with a label [xn--...] or with code units above 127 among them, is the
    platform's. *)
Definition toASCII (pf : Platform) (hostname : string) : outcome string :=
  if plainHost hostname then Return hostname
  else match idna pf hostname with
       | Some h => Return h
       | None => Throw HostNameError
       end.

Definition hexDigit (n : N) : ascii :=
  if (n <? 10)%N then ascii_of_N (48 + n) else ascii_of_N (55 + n).

Definition percent (c : ascii) : string :=
  String "%" (String (hexDigit (charCode c / 16))
                     (String (hexDigit (charCode c mod 16)) EmptyString)).

Definition isAutoEscaped (c : ascii) : bool :=
  codeIs 9 c || codeIs 10 c || codeIs 13 c || codeIs 32 c || codeIs 34 c
  || codeIs 39 c || codeIs 60 c || codeIs 62 c || codeIs 92 c || codeIs 94 c
  || codeIs 96 c || codeIs 123 c || codeIs 124 c || codeIs 125 c.

Definition autoEscapeStr (rest : string) : string :=
  flatMap (fun c => if isAutoEscaped c then percent c
                    else String c EmptyString) rest.

(** Two platforms to run examples on.  Both leave a host name of code
    units below 128 without [xn--] as it is and fail on the others, and
    agree with JavaScript on user information without escapes;
    [samplePlatform] has the table of slashed protocols without ws and wss
    (Node.js before 12, the [url] package of the bundlers) and leaves tabs
    where they are, [modernPlatform] has the table with them and takes tabs
    out (Node.js 18 and later). *)
Fixpoint holdsAce (s : string) : bool :=
  match s with
  | EmptyString => false
  | String _ r => startsWith "xn--" s || holdsAce r
  end.

Definition sampleIdna (hostname : string) : option string :=
  if all (fun c => (charCode c <? 128)%N) hostname && negb (holdsAce hostname)
  then Some hostname else None.

Definition samplePlatform : Platform :=
  {| slashedWs := false;
     stripsTabs := false;
     idna := sampleIdna;
     decodeURIComponent :=
       fun s => if any (codeIs 37) s then None else Some s;
     encodeAuth := fun s => s |}.

Definition modernPlatform : Platform :=
  {| slashedWs := true;
     stripsTabs := true;
     idna := sampleIdna;
     decodeURIComponent :=
       fun s => if any (codeIs 37) s then None else Some s;
     encodeAuth := fun s => s |}.

(** *** [Url.prototype.format] *)

Definition format (pf : Platform) (u : Url) : string :=
  let auth :=
    if truthy (auth u) then encodeAuth pf (orEmpty (auth u)) ++ "@" else "" in
  let protocol := orEmpty (protocol u) in
  let pathname := orEmpty (pathname u) in
  let hash := orEmpty (hash u) in
  let host :=
    if truthy (host u) then auth ++ orEmpty (host u)
    else if truthy (hostname u) then
      auth ++
      (if any (codeIs 58) (orEmpty (hostname u))
       then "[" ++ orEmpty (hostname u) ++ "]"
       else orEmpty (hostname u)) ++
      (if truthy (port u) then ":" ++ orEmpty (port u) else "")
    else "" in
  let search := orEmpty (search u) in
  let protocol :=
    if nonEmpty protocol && negb (endsWithChar ":" protocol)
    then protocol ++ ":" else protocol in
  let pathname :=
    flatMap (fun c => if codeIs 35 c then "%23"
                      else if codeIs 63 c then "%3F"
                      else String c EmptyString) pathname in
  let '(host, pathname) :=
    if slashes u || slashedProtocol pf (Some protocol) then
      if slashes u || nonEmpty host then
        ("//" ++ host,
         if nonEmpty pathname && negb (startsWith "/" pathname)
         then "/" ++ pathname else pathname)
      else if startsWith "file" protocol then ("//", pathname)
      else (host, pathname)
    else (host, pathname) in
  let search :=
    flatMap (fun c => if codeIs 35 c then "%23" else String c EmptyString)
            search in
  let hash :=
    if nonEmpty hash && negb (startsWith "#" hash) then "#" ++ hash
    else hash in
  let search :=
    if nonEmpty search && negb (startsWith "?" search) then "?" ++ search
    else search in
  protocol ++ host ++ pathname ++ search ++ hash.

(** *** [Url.prototype.parse] (without [parseQueryString] and
    [slashesDenoteHost], as [URL.parse(url)] calls it) *)

(** The authority of a URL that has one: user information, host, port, host
    name, and what is left of the input. *)
Record Authority : Type := {
  a_auth : option string;
  a_host : string;
  a_port : option string;
  a_hostname : string;
  a_rest : string
}.

(** The host of the authority [h], with the user information [au] in front
    of it and [rest] behind it: the port, the host name cut at its first
    invalid code unit, in lower case and converted. *)
Definition readHost (pf : Platform) (au : option string) (h rest : string)
  : outcome Authority :=
  let '(port, hostname) := parseHost h in
  let hostname := orEmpty hostname in
  let ipv6Hostname :=
    startsWith "[" hostname && endsWithChar "]" hostname in
  let '(hostname, rest) :=
    if ipv6Hostname then (hostname, rest) else getHostname rest hostname in
  let hostname :=
    if (hostnameMaxLen <? String.length hostname)%nat then ""
    else toLowerCase hostname in
  bind (if ipv6Hostname then Return hostname else toASCII pf hostname)
    (fun hostname =>
       let h :=
         hostname ++ (if truthy port then ":" ++ orEmpty port else "") in
       Return
         {| a_auth := au;
            a_host := h;
            a_port := port;
            a_hostname :=
              if ipv6Hostname
              then slice 1 (String.length hostname - 1) hostname
              else hostname;
            a_rest :=
              if ipv6Hostname && negb (startsWith "/" rest) then "/" ++ rest
              else rest |}).

Definition parseAuthority (pf : Platform) (rest : string)
  : outcome Authority :=
  let rest := if stripsTabs pf then stripInHost rest else rest in
  let '(atSign, nonHost) := scanHost rest 0 None None in
  let start := match atSign with Some i => S i | None => 0 end in
  let decoded :=
    match atSign with
    | Some i =>
        match decodeURIComponent pf (take i rest) with
        | Some a => Return (Some a)
        | None => Throw URIError
        end
    | None => Return None
    end in
  bind decoded (fun au =>
    match nonHost with
    | None => readHost pf au (drop start rest) ""
    | Some n => readHost pf au (slice start n rest) (drop n rest)
    end).

Definition someIfNonEmpty (s : string) : option string :=
  if nonEmpty s then Some s else None.

(** What [parse] does once the protocol, if there is one, is taken from the
    front of the input. *)
Definition afterProtocol (pf : Platform) (proto : option string)
    (rest : string) : outcome Url :=
  let lowerProto := option_map toLowerCase proto in
  let slashes :=
    match proto with
    | None => hostPattern rest && startsWith "//" rest
    | Some _ => startsWith "//" rest
    end in
  let strip := slashes && negb (truthy proto && hostlessProtocol proto) in
  let rest := if strip then drop 2 rest else rest in
  let authority :=
    if negb (hostlessProtocol proto)
       && (slashes || (truthy proto && negb (slashedProtocol pf proto)))
    then bind (parseAuthority pf rest) (fun a => Return (Some a))
    else Return None in
  bind authority (fun a =>
    let rest := match a with Some x => a_rest x | None => rest end in
    let rest :=
      if unsafeProtocol lowerProto then rest else autoEscapeStr rest in
    let '(beforeHash, hashPart) := break (codeIs 35) rest in
    let '(pathPart, searchPart) := break (codeIs 63) beforeHash in
    let hostname := option_map a_hostname a in
    let pathname :=
      if slashedProtocol pf lowerProto && truthy hostname
         && negb (nonEmpty pathPart)
      then Some "/" else someIfNonEmpty pathPart in
    let u :=
      {| protocol := lowerProto;
         slashes := strip;
         auth := match a with Some x => a_auth x | None => None end;
         host := option_map a_host a;
         port := match a with Some x => a_port x | None => None end;
         hostname := hostname;
         hash := someIfNonEmpty hashPart;
         search := someIfNonEmpty searchPart;
         query :=
           if nonEmpty searchPart then Some (drop 1 searchPart) else None;
         pathname := pathname;
         path :=
           if truthy pathname || nonEmpty searchPart
           then Some (orEmpty pathname ++ searchPart) else None;
         href := None |} in
    Return (setHref (Some (format pf u)) u)).

Definition parse (pf : Platform) (url : string) : outcome Url :=
  let hasHash := any (codeIs 35) url in
  let rest := convertBackslashes (trim url) in
  match (if hasHash then None else simplePathPattern rest) with
  | Some (p, s) =>
      Return
        {| protocol := None; slashes := false; auth := None; host := None;
           port := None; hostname := None; hash := None;
           search := someIfNonEmpty s;
           query := if nonEmpty s then Some (drop 1 s) else None;
           pathname := Some p; path := Some rest; href := Some rest |}
  | None =>
      match protocolPattern rest with
      | Some (proto, rest) => afterProtocol pf (Some proto) rest
      | None => afterProtocol pf None rest
      end
  end.

End URL.

(** ** JavaScript values *)

Module JSValue.

(** Numbers are the integers (the safe integers of JavaScript are the ones
    the embedding means, see [wfValue]); [NaN], the one value that [===]
    does not find equal to itself, is not among them.  Functions, arrays
    and objects have an identity; an array or an object is written with its
    contents, an object as the list of its own enumerable properties in the
    order of [Object.keys]. *)
Inductive value : Type :=
| VUndefined
| VNull
| VBool (b : bool)
| VNumber (z : Z)
| VString (s : string)
| VFunction (id : nat)
| VArray (id : nat) (elems : list value)
| VObject (id : nat) (props : list (string * value)).

Definition typeof (v : value) : string :=
  match v with
  | VUndefined => "undefined"
  | VNull => "object"
  | VBool _ => "boolean"
  | VNumber _ => "number"
  | VString _ => "string"
  | VFunction _ => "function"
  | VArray _ _ => "object"
  | VObject _ _ => "object"
  end.

Definition isArray (v : value) : bool :=
  match v with
  | VArray _ _ => true
  | _ => false
  end.

(** [a === b]: primitives by value, the others by identity. *)
Definition strictEquals (a b : value) : bool :=
  match a, b with
  | VUndefined, VUndefined => true
  | VNull, VNull => true
  | VBool x, VBool y => Bool.eqb x y
  | VNumber x, VNumber y => Z.eqb x y
  | VString x, VString y => String.eqb x y
  | VFunction i, VFunction j => Nat.eqb i j
  | VArray i _, VArray j _ => Nat.eqb i j
  | VObject i _, VObject j _ => Nat.eqb i j
  | _, _ => false
  end.

(** *** The order of the own properties of an object *)

Definition canonicalDigits (d : Decimal.uint) : bool :=
  match d with
  | Decimal.Nil => false
  | Decimal.D0 Decimal.Nil => true
  | Decimal.D0 _ => false
  | _ => true
  end.

(** A key is an array index when it is the decimal numeral of an integer
    below 2^32 - 1. *)
Definition arrayIndex (k : string) : option N :=
  match DecimalString.NilEmpty.uint_of_string k with
  | Some d =>
      if canonicalDigits d && (N.of_uint d <? 4294967295)%N
      then Some (N.of_uint d) else None
  | None => None
  end.

Section Props.
Context {A : Type}.

Fixpoint hasKey (k : string) (ps : list (string * A)) : bool :=
  match ps with
  | [] => false
  | (k', _) :: r => String.eqb k k' || hasKey k r
  end.

(** [obj[k]] for an own property. *)
Fixpoint getProp (k : string) (ps : list (string * A)) : option A :=
  match ps with
  | [] => None
  | (k', v) :: r => if String.eqb k k' then Some v else getProp k r
  end.

Fixpoint replaceProp (k : string) (v : A) (ps : list (string * A))
  : list (string * A) :=
  match ps with
  | [] => []
  | (k', v') :: r =>
      if String.eqb k k' then (k', v) :: r
      else (k', v') :: replaceProp k v r
  end.

Fixpoint insertIndex (n : N) (k : string) (v : A) (ps : list (string * A))
  : list (string * A) :=
  match ps with
  | [] => [(k, v)]
  | (k', v') :: r =>
      match arrayIndex k' with
      | Some m =>
          if (m <? n)%N then (k', v') :: insertIndex n k v r
          else (k, v) :: ps
      | None => (k, v) :: ps
      end
  end.

(** [obj[k] = v] on an object without setters: an existing property keeps
    its place; a new array index goes among the array indices, in ascending
    order, in front of the other keys; any other new key goes to the end. *)
Definition setProp (k : string) (v : A) (ps : list (string * A))
  : list (string * A) :=
  if hasKey k ps then replaceProp k v ps
  else match arrayIndex k with
       | Some n => insertIndex n k v ps
       | None => ps ++ [(k, v)]
       end.

End Props.

(** [Object.keys(obj)] *)
Definition keys {A : Type} (ps : list (string * A)) : list string :=
  map fst ps.

(** [mayPrecede k k']: [k] can stand in front of [k'] among the own
    properties of one object. *)
Definition mayPrecede (k k' : string) : bool :=
  match arrayIndex k, arrayIndex k' with
  | Some n, Some m => (n <? m)%N
  | Some _, None => true
  | None, Some _ => false
  | None, None => negb (String.eqb k k')
  end.

Fixpoint keysOrdered (ks : list string) : bool :=
  match ks with
  | [] => true
  | k :: r => forallb (mayPrecede k) r && keysOrdered r
  end.

Definition isSafeInteger (z : Z) : bool :=
  (Z.abs z <=? 9007199254740991)%Z.

(** The trees that stand for JavaScript values: numbers are safe integers and
    the properties of every object are distinct and in the order of
    [Object.keys]. *)
Fixpoint wfValue (v : value) : bool :=
  match v with
  | VNumber z => isSafeInteger z
  | VArray _ l => forallb wfValue l
  | VObject _ ps =>
      keysOrdered (keys ps) && forallb (fun p => wfValue (snd p)) ps
  | _ => true
  end.

(** A value that holds neither [undefined] nor a function, at any depth:
    the JSON-serializable values. *)
Fixpoint isJsonValue (v : value) : bool :=
  match v with
  | VUndefined => false
  | VFunction _ => false
  | VArray _ l => forallb isJsonValue l
  | VObject _ ps => forallb (fun p => isJsonValue (snd p)) ps
  | _ => true
  end.

(** [JSON.stringify] calls a property [toJSON] that is a function, and the
    embedding has no calls of functions.  What is said below of values
    that may hold functions and go through [JSON.stringify] is said of
    values without such a property, at any depth. *)
Definition isFunction (v : value) : bool :=
  match v with
  | VFunction _ => true
  | _ => false
  end.

Fixpoint withoutToJSON (v : value) : bool :=
  match v with
  | VArray _ l => forallb withoutToJSON l
  | VObject _ ps =>
      forallb (fun p => negb (String.eqb (fst p) "toJSON" && isFunction (snd p))
                        && withoutToJSON (snd p)) ps
  | _ => true
  end.

End JSValue.

Import JSValue.

(** ** [JSON.stringify] and [JSON.parse] *)

Module JSON.

(** The abstract syntax of a JSON text. *)
Inductive json : Type :=
| JNull
| JBool (b : bool)
| JNumber (z : Z)
| JString (s : string)
| JArray (elems : list json)
| JObject (members : list (string * json)).

(** *** [JSON.stringify(value)] *)

(** [SerializeJSONProperty]: [undefined] and functions have no JSON form;
    they are left out of an object and written [null] in an array.  A
    [toJSON] method is not called (see [withoutToJSON]). *)
Fixpoint toJson (v : value) : option json :=
  match v with
  | VUndefined => None
  | VFunction _ => None
  | VNull => Some JNull
  | VBool b => Some (JBool b)
  | VNumber z => Some (JNumber z)
  | VString s => Some (JString s)
  | VArray _ l =>
      Some (JArray (map (fun e => match toJson e with
                                  | Some j => j
                                  | None => JNull
                                  end) l))
  | VObject _ ps =>
      Some (JObject (flat_map (fun p => match toJson (snd p) with
                                        | Some j => [(fst p, j)]
                                        | None => []
                                        end) ps))
  end.

Definition printNat (n : N) : string :=
  DecimalString.NilEmpty.string_of_uint (N.to_uint n).

Definition printNumber (z : Z) : string :=
  match z with
  | Z0 => "0"
  | Zpos p => printNat (Npos p)
  | Zneg p => "-" ++ printNat (Npos p)
  end.

Definition lowerHexDigit (n : N) : ascii :=
  if (n <? 10)%N then ascii_of_N (48 + n) else ascii_of_N (87 + n).

(** [QuoteJSONString], one code unit. *)
Definition quoteChar (c : ascii) : string :=
  if codeIs 8 c then "\b"
  else if codeIs 9 c then "\t"
  else if codeIs 10 c then "\n"
  else if codeIs 12 c then "\f"
  else if codeIs 13 c then "\r"
  else if codeIs 34 c then String "\" (String c EmptyString)
  else if codeIs 92 c then "\\"
  else if (charCode c <? 32)%N then
    "\u00" ++ String (lowerHexDigit (charCode c / 16))
                     (String (lowerHexDigit (charCode c mod 16)) EmptyString)
  else String c EmptyString.

Definition dquote : ascii := ascii_of_N 34.

Definition quote (s : string) : string :=
  String dquote (flatMap quoteChar s ++ String dquote EmptyString).

Fixpoint join (sep : string) (l : list string) : string :=
  match l with
  | [] => ""
  | [x] => x
  | x :: r => x ++ sep ++ join sep r
  end.

Fixpoint print (j : json) : string :=
  match j with
  | JNull => "null"
  | JBool true => "true"
  | JBool false => "false"
  | JNumber z => printNumber z
  | JString s => quote s
  | JArray l => "[" ++ join "," (map print l) ++ "]"
  | JObject ms =>
      "{" ++ join "," (map (fun m => quote (fst m) ++ ":" ++ print (snd m)) ms)
          ++ "}"
  end.

(** [JSON.stringify(v)]: a string, or [undefined] (here [None]). *)
Definition stringify (v : value) : option string :=
  option_map print (toJson v).

(** *** [JSON.parse(text)] *)

(** What reading a prefix of a text gives: a result and the rest of the
    text, a syntax error, or a text outside the embedding. *)
Inductive reading (A : Type) : Type :=
| Read (a : A) (rest : string)
| Malformed
| Beyond.

Arguments Read {A} a rest.
Arguments Malformed {A}.
Arguments Beyond {A}.

Definition isJsonSpace (c : ascii) : bool :=
  codeIs 9 c || codeIs 10 c || codeIs 13 c || codeIs 32 c.

Fixpoint skipSpace (s : string) : string :=
  match s with
  | EmptyString => EmptyString
  | String c r => if isJsonSpace c then skipSpace r else s
  end.

Definition hexValue (c : ascii) : option N :=
  if isDigit c then Some (charCode c - 48)%N
  else if codeIn 97 102 c then Some (charCode c - 87)%N
  else if codeIn 65 70 c then Some (charCode c - 55)%N
  else None.

Definition hex4 (a b c d : ascii) : option N :=
  match hexValue a, hexValue b, hexValue c, hexValue d with
  | Some x, Some y, Some z, Some w => Some (((x * 16 + y) * 16 + z) * 16 + w)%N
  | _, _, _, _ => None
  end.

Definition consRead (c : ascii) (r : reading string) : reading string :=
  match r with
  | Read s rest => Read (String c s) rest
  | Malformed => Malformed
  | Beyond => Beyond
  end.

(** The characters of a string literal, behind its opening quote. *)
Fixpoint readChars (s : string) : reading string :=
  match s with
  | EmptyString => Malformed
  | String c r =>
      if codeIs 34 c then Read EmptyString r
      else if codeIs 92 c then
        match r with
        | String e r1 =>
            if codeIs 34 e || codeIs 92 e || codeIs 47 e then
              consRead e (readChars r1)
            else if codeIs 98 e then consRead (ascii_of_N 8) (readChars r1)
            else if codeIs 102 e then consRead (ascii_of_N 12) (readChars r1)
            else if codeIs 110 e then consRead (ascii_of_N 10) (readChars r1)
            else if codeIs 114 e then consRead (ascii_of_N 13) (readChars r1)
            else if codeIs 116 e then consRead (ascii_of_N 9) (readChars r1)
            else if codeIs 117 e then
              match r1 with
              | String h1 (String h2 (String h3 (String h4 r2))) =>
                  match hex4 h1 h2 h3 h4 with
                  | Some n =>
                      if (n <? 256)%N then consRead (ascii_of_N n) (readChars r2)
                      else Beyond
                  | None => Malformed
                  end
              | _ => Malformed
              end
            else Malformed
        | EmptyString => Malformed
        end
      else if (charCode c <? 32)%N then Malformed
      else consRead c (readChars r)
  end.

Definition consDigit (c : ascii) (d : Decimal.uint) : Decimal.uint :=
  match DecimalString.uint_of_char c (Some d) with
  | Some d' => d'
  | None => d
  end.

Fixpoint readDigits (s : string) : Decimal.uint * string :=
  match s with
  | EmptyString => (Decimal.Nil, EmptyString)
  | String c r =>
      if isDigit c then let '(d, rest) := readDigits r in (consDigit c d, rest)
      else (Decimal.Nil, s)
  end.

Definition startsFraction (s : string) : bool :=
  match s with
  | String c _ => codeIs 46 c || codeIs 101 c || codeIs 69 c
  | EmptyString => false
  end.

(** A number: an optional minus sign and digits without a leading zero.  A
    fraction, an exponent, [-0] and an integer that is not safe are numbers
    outside the embedding. *)
Definition readNumber (s : string) : reading Z :=
  let '(negative, s1) :=
    match s with
    | String c r => if codeIs 45 c then (true, r) else (false, s)
    | EmptyString => (false, s)
    end in
  let '(d, rest) := readDigits s1 in
  match d with
  | Decimal.Nil => Malformed
  | _ =>
      if canonicalDigits d then
        if startsFraction rest then Beyond
        else
          let n := Z.of_N (N.of_uint d) in
          if negative && (n =? 0)%Z then Beyond
          else if isSafeInteger n then Read (if negative then (- n)%Z else n) rest
          else Beyond
      else
        (* a leading zero: the number stops behind it *)
        if startsFraction (drop (if negative then 2 else 1) s) then Beyond
        else if negative then Beyond
        else Read 0%Z (drop 1 s)
  end.

Definition readLiteral (lit : string) (j : json) (s : string) : reading json :=
  if startsWith lit s then Read j (drop (String.length lit) s) else Malformed.

Fixpoint readValue (fuel : nat) (s : string) : reading json :=
  match fuel with
  | O => Malformed
  | S fuel =>
      match skipSpace s with
      | EmptyString => Malformed
      | String c r as s' =>
          if codeIs 34 c then
            match readChars r with
            | Read str rest => Read (JString str) rest
            | Malformed => Malformed
            | Beyond => Beyond
            end
          else if codeIs 91 c then
            match skipSpace r with
            | String d r' =>
                if codeIs 93 d then Read (JArray []) r'
                else
                  match readValue fuel r with
                  | Read j rest =>
                      match readElements fuel rest with
                      | Read js rest' => Read (JArray (j :: js)) rest'
                      | Malformed => Malformed
                      | Beyond => Beyond
                      end
                  | Malformed => Malformed
                  | Beyond => Beyond
                  end
            | EmptyString => Malformed
            end
          else if codeIs 123 c then
            match skipSpace r with
            | String d r' =>
                if codeIs 125 d then Read (JObject []) r'
                else
                  match readMember fuel r with
                  | Read m rest =>
                      match readMembers fuel rest with
                      | Read ms rest' => Read (JObject (m :: ms)) rest'
                      | Malformed => Malformed
                      | Beyond => Beyond
                      end
                  | Malformed => Malformed
                  | Beyond => Beyond
                  end
            | EmptyString => Malformed
            end
          else if codeIs 116 c then readLiteral "true" (JBool true) s'
          else if codeIs 102 c then readLiteral "false" (JBool false) s'
          else if codeIs 110 c then readLiteral "null" JNull s'
          else
            match readNumber s' with
            | Read z rest => Read (JNumber z) rest
            | Malformed => Malformed
            | Beyond => Beyond
            end
      end
  end

(** What follows the first element of an array: a comma and one more
    element, as often as it takes, and the closing bracket. *)
with readElements (fuel : nat) (s : string) : reading (list json) :=
  match fuel with
  | O => Malformed
  | S fuel =>
      match skipSpace s with
      | String c r =>
          if codeIs 93 c then Read [] r
          else if codeIs 44 c then
            match readValue fuel r with
            | Read j rest =>
                match readElements fuel rest with
                | Read js rest' => Read (j :: js) rest'
                | Malformed => Malformed
                | Beyond => Beyond
                end
            | Malformed => Malformed
            | Beyond => Beyond
            end
          else Malformed
      | EmptyString => Malformed
      end
  end

(** A member of an object: a string, a colon and a value. *)
with readMember (fuel : nat) (s : string) : reading (string * json) :=
  match fuel with
  | O => Malformed
  | S fuel =>
      match skipSpace s with
      | String c r =>
          if codeIs 34 c then
            match readChars r with
            | Read k rest =>
                match skipSpace rest with
                | String d rest1 =>
                    if codeIs 58 d then
                      match readValue fuel rest1 with
                      | Read j rest2 => Read (k, j) rest2
                      | Malformed => Malformed
                      | Beyond => Beyond
                      end
                    else Malformed
                | EmptyString => Malformed
                end
            | Malformed => Malformed
            | Beyond => Beyond
            end
          else Malformed
      | EmptyString => Malformed
      end
  end

with readMembers (fuel : nat) (s : string) : reading (list (string * json)) :=
  match fuel with
  | O => Malformed
  | S fuel =>
      match skipSpace s with
      | String c r =>
          if codeIs 125 c then Read [] r
          else if codeIs 44 c then
            match readMember fuel r with
            | Read m rest =>
                match readMembers fuel rest with
                | Read ms rest' => Read (m :: ms) rest'
                | Malformed => Malformed
                | Beyond => Beyond
                end
            | Malformed => Malformed
            | Beyond => Beyond
            end
          else Malformed
      | EmptyString => Malformed
      end
  end.

(** The whole text is one value between white space.  The text is longer
    than the value is deep, which is all the fuel the reader needs. *)
Definition readText (text : string) : reading json :=
  match readValue (S (String.length text)) text with
  | Read j rest =>
      match skipSpace rest with
      | EmptyString => Read j EmptyString
      | String _ _ => Malformed
      end
  | Malformed => Malformed
  | Beyond => Beyond
  end.

(** The value a JSON text stands for.  Arrays and objects are new: [next] is
    the first identity that is free, and the result tells the next one.
    The members of an object are defined one after the other, so that a key
    written twice keeps its last value. *)
Section Build.
Variable build : json -> nat -> value * nat.

Fixpoint buildElements (l : list json) (n : nat) : list value * nat :=
  match l with
  | [] => ([], n)
  | j :: r =>
      let '(v, n1) := build j n in
      let '(vs, n2) := buildElements r n1 in
      (v :: vs, n2)
  end.

Fixpoint buildMembers (ms : list (string * json))
    (acc : list (string * value)) (n : nat) : list (string * value) * nat :=
  match ms with
  | [] => (acc, n)
  | m :: r =>
      let '(v, n1) := build (snd m) n in
      buildMembers r (setProp (fst m) v acc) n1
  end.

End Build.

Fixpoint build (j : json) (next : nat) : value * nat :=
  match j with
  | JNull => (VNull, next)
  | JBool b => (VBool b, next)
  | JNumber z => (VNumber z, next)
  | JString s => (VString s, next)
  | JArray l =>
      let '(vs, next') := buildElements build l (S next) in
      (VArray next vs, next')
  | JObject ms =>
      let '(ps, next') := buildMembers build ms [] (S next) in
      (VObject next ps, next')
  end.

(** [JSON.parse(text)], where [text] is a string or [undefined]. *)
Definition parse (text : option string) (next : nat) : outcome value * nat :=
  match text with
  | None => (Throw SyntaxError, next)
  | Some t =>
      match readText t with
      | Read j _ => let '(v, next') := build j next in (Return v, next')
      | Malformed => (Throw SyntaxError, next)
      | Beyond => (Uncovered, next)
      end
  end.

End JSON.

(** ** The functions of [utils.js] *)

Module Utils.

Import URL.

(** [deepEquals(objA, objB)] *)
Definition deepEquals (objA objB : value) : bool :=
  if strictEquals objA objB then true
  else if negb (String.eqb (typeof objA) "object")
          || negb (String.eqb (typeof objB) "object") then false
  else
    match JSON.stringify objA, JSON.stringify objB with
    | Some a, Some b => String.eqb a b
    | None, None => true
    | _, _ => false
    end.

(** [deepCopy(obj)]; [next] is the first free identity. *)
Definition deepCopy (obj : value) (next : nat) : outcome value * nat :=
  if String.eqb (typeof obj) "object" then
    JSON.parse (JSON.stringify obj) next
  else (Return obj, next).

(** [shallowCopy(obj)].  [obj.slice(0)] is a new array of the same elements;
    [Object.create(null)] is a new object without properties, and
    [Object.keys] throws a [TypeError] when it is given [null]. *)
Definition shallowCopy (obj : value) (next : nat) : outcome value * nat :=
  if isArray obj then
    match obj with
    | VArray _ elems => (Return (VArray next elems), S next)
    | _ => (Return obj, next)
    end
  else if String.eqb (typeof obj) "object" then
    let copy : list (string * value) := [] in
    match obj with
    | VObject _ own =>
        let props := keys own in
        let copy :=
          fold_left
            (fun copy k =>
               setProp k (match getProp k own with
                          | Some v => v
                          | None => VUndefined
                          end) copy)
            props copy in
        (Return (VObject next copy), S next)
    | _ => (Throw TypeError, S next)
    end
  else (Return obj, next).

(** *** The timer wrappers

    A wrapper either returns a value or calls a function and returns what
    that call returns.  The functions that can be called are the two
    wrappers, through the [exports] object, and the two timers of the
    platform. *)
Inductive callee : Type :=
| ExportsSetTimeout
| ExportsSetInterval
| PlatformSetTimeout
| PlatformSetInterval.

Inductive action : Type :=
| Call (f : callee) (callback duration : value)
| Result (v : value).

Definition setTimeout (callback timeoutDuration : value) : action :=
  if negb (strictEquals timeoutDuration VNull) then
    Call ExportsSetTimeout callback timeoutDuration
  else Result (VNumber (-1)).

Definition setInterval (callback intervalDuration : value) : action :=
  if negb (strictEquals intervalDuration VNull) then
    Call ExportsSetInterval callback intervalDuration
  else Result (VNumber (-1)).

(** The machine that runs a call: the action at hand and the calls that wait
    for its result.  A call of a wrapper enters its body; a result goes to
    the caller that waits, which returns it in turn; a timer of the platform
    would register the callback and give its handle, which the embedding
    leaves open ([None]). *)
Record machine : Type := {
  now : action;
  waiting : list callee
}.

Definition step (m : machine) : option machine :=
  match now m with
  | Call ExportsSetTimeout cb d =>
      Some {| now := setTimeout cb d;
              waiting := ExportsSetTimeout :: waiting m |}
  | Call ExportsSetInterval cb d =>
      Some {| now := setInterval cb d;
              waiting := ExportsSetInterval :: waiting m |}
  | Call PlatformSetTimeout _ _ => None
  | Call PlatformSetInterval _ _ => None
  | Result v =>
      match waiting m with
      | _ :: callers => Some {| now := Result v; waiting := callers |}
      | [] => None
      end
  end.

Fixpoint steps (n : nat) (m : machine) : option machine :=
  match n with
  | O => Some m
  | S k =>
      match step m with
      | Some m' => steps k m'
      | None => None
      end
  end.

(** The machine has finished with [v] when [v] is the result at hand and
    no call waits for it. *)
Definition returned (m : machine) : option value :=
  match now m, waiting m with
  | Result v, [] => Some v
  | _, _ => None
  end.

Definition callsPlatform (m : machine) : bool :=
  match now m with
  | Call PlatformSetTimeout _ _ => true
  | Call PlatformSetInterval _ _ => true
  | _ => false
  end.

(** A call of [exports.setTimeout] or [exports.setInterval] from outside. *)
Definition enter (f : callee) (callback duration : value) : machine :=
  {| now := Call f callback duration; waiting := [] |}.

(** [hasUrlProtocol]: the input starts with [wss:], with [ws:] or with two
    slashes. *)
Definition hasUrlProtocol (url : string) : bool :=
  startsWith "wss:" url || startsWith "ws:" url || startsWith "//" url.

(** [unsupportedProtocol]: the input starts with [http:] or with [https:]. *)
Definition unsupportedProtocol (url : string) : bool :=
  startsWith "http:" url || startsWith "https:" url.

(** The two failures of [parseUrl], under the names the specification gives
    them. *)
Definition UnsupportedProtocolError : exn :=
  Error "Only ws and wss are supported".

Definition InvalidUrlError : exn := Error "invalid url, missing host".

Definition parseUrl (pf : Platform) (initialURl defaultPath : string)
  : outcome string :=
  let url := initialURl in
  if unsupportedProtocol url then
    Throw (Error "Only ws and wss are supported")
  else
    let url :=
      if negb (hasUrlProtocol url) then "ws://" ++ url
      else if startsWith "//" url then "ws:" ++ url
      else url in
    bind (URL.parse pf url) (fun serverUrl =>
      if negb (truthy (host serverUrl)) then
        Throw (Error "invalid url, missing host")
      else
        let serverUrl :=
          setProtocol (if truthy (protocol serverUrl)
                       then protocol serverUrl else Some "ws:") serverUrl in
        let serverUrl :=
          setPathname (if truthy (pathname serverUrl)
                       then pathname serverUrl else Some defaultPath)
                      serverUrl in
        Return (URL.format pf serverUrl)).

(** The string that [parseUrl] gives to [URL.parse]: the value of [url]
    behind lines 147 to 152. *)
Definition urlToParse (initialURl : string) : string :=
  let url := initialURl in
  if negb (hasUrlProtocol url) then "ws://" ++ url
  else if startsWith "//" url then "ws:" ++ url
  else url.

(** The URL object that [parseUrl] gives to [URL.format]: the value of
    [serverUrl] behind line 158. *)
Definition serverUrl (pf : Platform) (initialURl defaultPath : string)
  : outcome Url :=
  if unsupportedProtocol initialURl then
    Throw (Error "Only ws and wss are supported")
  else
    bind (URL.parse pf (urlToParse initialURl)) (fun serverUrl =>
      if negb (truthy (host serverUrl)) then
        Throw (Error "invalid url, missing host")
      else
        Return
          (setPathname (if truthy (pathname serverUrl)
                        then pathname serverUrl else Some defaultPath)
             (setProtocol (if truthy (protocol serverUrl)
                           then protocol serverUrl else Some "ws:")
                serverUrl))).

End Utils.

Import URL Utils.

(** * Properties *)

(** ** Strings *)

Lemma append_empty_r (s : string) : s ++ "" = s.
Proof. induction s as [|c s IH]; simpl; [reflexivity | now rewrite IH]. Qed.

Lemma append_assoc (a b c : string) : (a ++ b) ++ c = a ++ b ++ c.
Proof. induction a as [|x a IH]; simpl; [reflexivity | now rewrite IH]. Qed.

Lemma length_append (a b : string) :
  String.length (a ++ b) = String.length a + String.length b.
Proof. induction a as [|x a IH]; simpl; [reflexivity | now rewrite IH]. Qed.

Lemma startsWith_append (p s : string) : startsWith p (p ++ s) = true.
Proof.
  unfold startsWith. induction p as [|c p IH]; simpl.
  - now destruct s.
  - destruct (ascii_dec c c) as [_|n]; [exact IH | now elim n].
Qed.

Lemma startsWith_inv (p s : string) :
  startsWith p s = true -> exists r, s = p ++ r.
Proof.
  unfold startsWith. revert s. induction p as [|c p IH]; intros s H.
  - now exists s.
  - destruct s as [|d s]; simpl in H; [discriminate|].
    destruct (ascii_dec c d) as [->|]; [|discriminate].
    destruct (IH _ H) as [r ->]. now exists r.
Qed.

Lemma nonEmpty_append_l (a b : string) :
  nonEmpty a = true -> nonEmpty (a ++ b) = true.
Proof. now destruct a. Qed.

Lemma all_append p (a b : string) : all p (a ++ b) = all p a && all p b.
Proof.
  induction a as [|c a IH]; simpl; [reflexivity|].
  now rewrite IH, andb_assoc.
Qed.


Lemma all_weaken (p q : ascii -> bool) (s : string) :
  (forall c, p c = true -> q c = true) -> all p s = true -> all q s = true.
Proof.
  intros Hpq. induction s as [|c s IH]; simpl; [reflexivity|].
  intros H. apply andb_true_iff in H as [Hc Hs].
  now rewrite (Hpq _ Hc), IH.
Qed.

Lemma all_none (p q : ascii -> bool) (s : string) :
  (forall c, p c = true -> q c = false) -> all p s = true -> any q s = false.
Proof.
  intros Hpq. induction s as [|c s IH]; simpl; [reflexivity|].
  intros H. apply andb_true_iff in H as [Hc Hs].
  now rewrite (Hpq _ Hc), IH.
Qed.

Lemma take_append (a b : string) : take (String.length a) (a ++ b) = a.
Proof. induction a as [|c a IH]; simpl; [now destruct b | now rewrite IH]. Qed.

Lemma drop_append (a b : string) : drop (String.length a) (a ++ b) = b.
Proof. induction a as [|c a IH]; simpl; [reflexivity | exact IH]. Qed.

Lemma break_append p (a b : string) :
  any p a = false ->
  break p (a ++ b) = (a ++ fst (break p b), snd (break p b)).
Proof.
  induction a as [|c a IH]; simpl; intros H.
  - now destruct (break p b).
  - apply orb_false_iff in H as [Hc Ha]. rewrite Hc, (IH Ha). reflexivity.
Qed.

Lemma break_none p (a : string) : any p a = false -> break p a = (a, "").
Proof.
  intros H. rewrite <- (append_empty_r a) at 1.
  rewrite (break_append _ _ _ H). simpl. now rewrite append_empty_r.
Qed.

Lemma mapStr_id (f : ascii -> ascii) p (s : string) :
  (forall c, p c = true -> f c = c) -> all p s = true -> mapStr f s = s.
Proof.
  intros Hf. induction s as [|c s IH]; simpl; [reflexivity|].
  intros H. apply andb_true_iff in H as [Hc Hs].
  now rewrite (Hf _ Hc), IH.
Qed.

Lemma flatMap_id (f : ascii -> string) p (s : string) :
  (forall c, p c = true -> f c = String c "") -> all p s = true ->
  flatMap f s = s.
Proof.
  intros Hf. induction s as [|c s IH]; simpl; [reflexivity|].
  intros H. apply andb_true_iff in H as [Hc Hs].
  now rewrite (Hf _ Hc), IH.
Qed.


(** ** [parseUrl]: the two failures *)

Lemma parseUrl_serverUrl pf input defaultPath :
  parseUrl pf input defaultPath =
  bind (serverUrl pf input defaultPath) (fun u => Return (URL.format pf u)).
Proof.
  unfold parseUrl, serverUrl, urlToParse.
  destruct (unsupportedProtocol input); [reflexivity|].
  destruct (URL.parse pf _) as [u|e|]; simpl; [|reflexivity|reflexivity].
  now destruct (truthy (host u)).
Qed.

Lemma parseUrl_supported pf input defaultPath :
  unsupportedProtocol input = false ->
  parseUrl pf input defaultPath =
  bind (URL.parse pf (urlToParse input)) (fun u =>
    if truthy (host u) then
      Return (URL.format pf
                (setPathname (if truthy (pathname u)
                              then pathname u else Some defaultPath)
                   (setProtocol (if truthy (protocol u)
                                 then protocol u else Some "ws:") u)))
    else Throw InvalidUrlError).
Proof.
  intros H. unfold parseUrl, urlToParse. rewrite H.
  destruct (URL.parse pf _) as [u|e|]; simpl; [|reflexivity|reflexivity].
  now destruct (truthy (host u)).
Qed.

(** [URL.parse] throws nothing but the [URIError] of [decodeURIComponent]
    and the failure of the IDNA conversion, and it covers every string. *)
Definition parseFailure (e : exn) : Prop := e = URIError \/ e = HostNameError.

Lemma toASCII_cases pf hostname :
  toASCII pf hostname = Throw HostNameError \/
  exists h, toASCII pf hostname = Return h.
Proof.
  unfold toASCII. destruct (plainHost hostname); [right; eexists; reflexivity|].
  destruct (idna pf hostname); [right; eexists; reflexivity | now left].
Qed.

Lemma readHost_cases pf au h rest :
  (exists e, parseFailure e /\ readHost pf au h rest = Throw e) \/
  exists a, readHost pf au h rest = Return a.
Proof.
  unfold readHost. destruct (parseHost h) as [port hn].
  destruct (startsWith "[" (orEmpty hn) && endsWithChar "]" (orEmpty hn)).
  - right. eexists. reflexivity.
  - destruct (getHostname rest (orEmpty hn)) as [hn' r'].
    match goal with
    | |- context [toASCII pf ?x] =>
        destruct (toASCII_cases pf x) as [E|[x' E]]; rewrite E; simpl
    end.
    + left. exists HostNameError. split; [now right | reflexivity].
    + right. eexists. reflexivity.
Qed.

Lemma parseAuthority_cases pf rest :
  (exists e, parseFailure e /\ parseAuthority pf rest = Throw e) \/
  exists a, parseAuthority pf rest = Return a.
Proof.
  unfold parseAuthority.
  set (rest' := if stripsTabs pf then stripInHost rest else rest).
  destruct (scanHost rest' 0 None None) as [atSign nonHost].
  destruct atSign as [i|]; simpl.
  - destruct (decodeURIComponent pf (take i rest')); simpl.
    + destruct nonHost; apply readHost_cases.
    + left. exists URIError. split; [now left | reflexivity].
  - destruct nonHost; apply readHost_cases.
Qed.

Lemma afterProtocol_cases pf proto rest :
  (exists e, parseFailure e /\ afterProtocol pf proto rest = Throw e) \/
  exists u, afterProtocol pf proto rest = Return u.
Proof.
  unfold afterProtocol.
  destruct (negb (hostlessProtocol proto) && _).
  - match goal with
    | |- context [parseAuthority pf ?r] =>
        destruct (parseAuthority_cases pf r) as [[e [F H]]|[a H]];
          rewrite H; simpl
    end.
    + left. now exists e.
    + right. destruct (break (codeIs 35) _), (break (codeIs 63) _).
      eexists; reflexivity.
  - simpl. right. destruct (break (codeIs 35) _), (break (codeIs 63) _).
    eexists; reflexivity.
Qed.

Lemma parse_cases pf url :
  (exists e, parseFailure e /\ URL.parse pf url = Throw e) \/
  exists u, URL.parse pf url = Return u.
Proof.
  unfold URL.parse.
  destruct (if any (codeIs 35) url then None else simplePathPattern _)
    as [[p s]|]; [right; eexists; reflexivity|].
  destruct (protocolPattern _) as [[proto rest]|]; apply afterProtocol_cases.
Qed.

Lemma unsupportedProtocol_http rest :
  unsupportedProtocol ("http:" ++ rest) = true.
Proof. unfold unsupportedProtocol. now rewrite startsWith_append. Qed.

Lemma unsupportedProtocol_https rest :
  unsupportedProtocol ("https:" ++ rest) = true.
Proof.
  unfold unsupportedProtocol. rewrite (startsWith_append "https:").
  apply orb_true_r.
Qed.

Lemma parseUrl_unsupported pf input defaultPath :
  unsupportedProtocol input = true ->
  parseUrl pf input defaultPath = Throw UnsupportedProtocolError.
Proof. intros H. unfold parseUrl. now rewrite H. Qed.

Lemma unsupportedProtocol_inv input :
  unsupportedProtocol input = true ->
  exists rest, input = "http:" ++ rest \/ input = "https:" ++ rest.
Proof.
  unfold unsupportedProtocol. intros H.
  apply orb_true_iff in H as [H|H]; apply startsWith_inv in H as [r ->];
    exists r; [now left | now right].
Qed.

(** C1. Every input that begins with [http:] or with [https:] makes
    [parseUrl] throw the error "Only ws and wss are supported"
    ([UnsupportedProtocolError]), whatever the default path, and so no
    string is returned. *)
Theorem parseUrl_rejects_http_and_https :
  forall pf rest defaultPath,
    parseUrl pf ("http:" ++ rest) defaultPath = Throw UnsupportedProtocolError
    /\ parseUrl pf ("https:" ++ rest) defaultPath
       = Throw UnsupportedProtocolError
    /\ (forall s, parseUrl pf ("http:" ++ rest) defaultPath <> Return s)
    /\ (forall s, parseUrl pf ("https:" ++ rest) defaultPath <> Return s).
Proof.
  intros pf rest defaultPath.
  assert (H1 : parseUrl pf ("http:" ++ rest) defaultPath
               = Throw UnsupportedProtocolError)
    by apply parseUrl_unsupported, unsupportedProtocol_http.
  assert (H2 : parseUrl pf ("https:" ++ rest) defaultPath
               = Throw UnsupportedProtocolError)
    by apply parseUrl_unsupported, unsupportedProtocol_https.
  repeat split; trivial; intros s; [rewrite H1 | rewrite H2]; discriminate.
Qed.

(** C7. The rejection is a case-sensitive prefix match: [parseUrl] throws
    [UnsupportedProtocolError] exactly when the input begins with the
    lower-case [http:] or [https:]; [HTTP://example.com], which matches only
    when case is ignored, is not rejected that way (with the default path
    [/socket] it even returns a URL). *)
Theorem parseUrl_rejection_is_case_sensitive :
  forall pf input defaultPath,
    (parseUrl pf input defaultPath = Throw UnsupportedProtocolError
     <-> exists rest, input = "http:" ++ rest \/ input = "https:" ++ rest)
    /\ parseUrl pf "HTTP://example.com" defaultPath
       <> Throw UnsupportedProtocolError
    /\ parseUrl pf "HTTP://example.com" "/socket"
       = Return "ws://http//example.com".
Proof.
  intros pf input defaultPath. split; [split|split].
  - intros H. destruct (unsupportedProtocol input) eqn:E.
    + now apply unsupportedProtocol_inv.
    + rewrite (parseUrl_supported _ _ _ E) in H.
      destruct (parse_cases pf (urlToParse input))
        as [[e [[-> | ->] P]]|[u P]];
        rewrite P in H; simpl in H; try discriminate.
      destruct (truthy (host u)); discriminate.
  - intros [rest [-> | ->]]; apply parseUrl_unsupported;
      [apply unsupportedProtocol_http | apply unsupportedProtocol_https].
  - destruct pf as [[] [] i d e]; vm_compute; discriminate.
  - destruct pf as [[] [] i d e]; reflexivity.
Qed.

(** ** [parseUrl]: a URL without a host *)

(** C2, as the specification states it, fails at the input [http:@]: with
    [ws://] in front it parses to a URL without a host, but the call has
    failed before that, with [UnsupportedProtocolError]. *)
Lemma parseUrl_missing_host_counterexample :
  exists u,
    URL.parse samplePlatform (urlToParse "http:@") = Return u
    /\ truthy (host u) = false
    /\ parseUrl samplePlatform "http:@" "/socket"
       = Throw UnsupportedProtocolError
    /\ parseUrl samplePlatform "http:@" "/socket" <> Throw InvalidUrlError.
Proof.
  eexists. split; [reflexivity|]. split; [reflexivity|].
  split; [reflexivity|]. vm_compute. discriminate.
Qed.

(** C2, amended. Every input that does not begin with [http:] or [https:]
    and that, with the scheme put in front of it, parses to a URL without a
    host makes [parseUrl] throw "invalid url, missing host"
    ([InvalidUrlError]), whatever the default path. *)
Theorem parseUrl_rejects_missing_host :
  forall pf input defaultPath u,
    unsupportedProtocol input = false ->
    URL.parse pf (urlToParse input) = Return u ->
    truthy (host u) = false ->
    parseUrl pf input defaultPath = Throw InvalidUrlError.
Proof.
  intros pf input defaultPath u Hs Hp Hh.
  rewrite (parseUrl_supported _ _ _ Hs), Hp. simpl. now rewrite Hh.
Qed.

(** The empty string and a bare path are such inputs. *)
Lemma parseUrl_rejects_missing_host_witness :
  parseUrl samplePlatform "" "/socket" = Throw InvalidUrlError
  /\ parseUrl samplePlatform "/deepstream" "/socket" = Throw InvalidUrlError.
Proof.
  split.
  - eapply (parseUrl_rejects_missing_host samplePlatform "" "/socket");
      reflexivity.
  - eapply (parseUrl_rejects_missing_host samplePlatform "/deepstream"
              "/socket"); reflexivity.
Defined.

(** ** [parseUrl]: the defaults *)




(** ** [parseUrl]: what is returned *)

Lemma trimEnd_cons c r :
  isTrimmed c = false -> trimEnd (String c r) = String c (trimEnd r).
Proof. intros H. simpl. rewrite H. now destruct (trimEnd r). Qed.

Lemma parse_ws pf x :
  URL.parse pf ("ws:" ++ x)
  = afterProtocol pf (Some "ws:") (convertBackslashes (trimEnd x)).
Proof.
  unfold URL.parse, trim. simpl trimStart.
  change ("ws:" ++ x) with (String "w" (String "s" (String ":" x))).
  rewrite !trimEnd_cons by reflexivity.
  now destruct (any _ _).
Qed.

Lemma parse_wss pf x :
  URL.parse pf ("wss:" ++ x)
  = afterProtocol pf (Some "wss:") (convertBackslashes (trimEnd x)).
Proof.
  unfold URL.parse, trim. simpl trimStart.
  change ("wss:" ++ x)
    with (String "w" (String "s" (String "s" (String ":" x)))).
  rewrite !trimEnd_cons by reflexivity.
  now destruct (any _ _).
Qed.

(** The string given to [URL.parse] begins with one of the two schemes. *)
Lemma urlToParse_scheme input :
  exists x, urlToParse input = "ws:" ++ x \/ urlToParse input = "wss:" ++ x.
Proof.
  unfold urlToParse, hasUrlProtocol.
  destruct (startsWith "wss:" input) eqn:E1.
  - apply startsWith_inv in E1 as [r ->]. exists r. right. reflexivity.
  - destruct (startsWith "ws:" input) eqn:E2.
    + apply startsWith_inv in E2 as [r ->]. exists r. left. reflexivity.
    + destruct (startsWith "//" input); simpl; eexists; left; reflexivity.
Qed.

Lemma afterProtocol_protocol pf proto rest u :
  afterProtocol pf proto rest = Return u ->
  protocol u = option_map toLowerCase proto.
Proof.
  unfold afterProtocol.
  destruct (negb (hostlessProtocol proto) && _).
  - destruct (parseAuthority pf _) as [a| |]; simpl; try discriminate.
    destruct (break (codeIs 35) _), (break (codeIs 63) _).
    now intros [= <-].
  - simpl. destruct (break (codeIs 35) _), (break (codeIs 63) _).
    now intros [= <-].
Qed.


(** *** The parts of a URL that [URL.format] writes *)

Definition shownAuth (pf : Platform) (u : Url) : string :=
  if truthy (auth u) then encodeAuth pf (orEmpty (auth u)) ++ "@" else "".

Definition escapedPath (u : Url) : string :=
  flatMap (fun c => if codeIs 35 c then "%23"
                    else if codeIs 63 c then "%3F"
                    else String c EmptyString) (orEmpty (pathname u)).

(** Two slashes follow the scheme [ws:] or [wss:] of a URL with a host when
    the URL has its slashes or the scheme is a slashed protocol. *)
Definition doubleSlash (pf : Platform) (u : Url) : bool :=
  slashes u || slashedWs pf.

Definition shownPath (pf : Platform) (u : Url) : string :=
  if doubleSlash pf u && nonEmpty (escapedPath u)
     && negb (startsWith "/" (escapedPath u))
  then "/" ++ escapedPath u else escapedPath u.

Definition shownSearch (u : Url) : string :=
  let search :=
    flatMap (fun c => if codeIs 35 c then "%23" else String c EmptyString)
            (orEmpty (search u)) in
  if nonEmpty search && negb (startsWith "?" search) then "?" ++ search
  else search.

Definition shownHash (u : Url) : string :=
  if nonEmpty (orEmpty (hash u)) && negb (startsWith "#" (orEmpty (hash u)))
  then "#" ++ orEmpty (hash u) else orEmpty (hash u).


Lemma nonEmpty_append_r (a b : string) :
  nonEmpty b = true -> nonEmpty (a ++ b) = true.
Proof. destruct a; simpl; auto. Qed.


Lemma slashedProtocol_ws pf scheme :
  scheme = "ws:" \/ scheme = "wss:" ->
  slashedProtocol pf (Some scheme) = slashedWs pf.
Proof.
  intros [-> | ->]; unfold slashedProtocol; simpl; apply andb_true_r.
Qed.


(** A URL with one of the two schemes and a host is written as the scheme,
    two slashes if it has them, the user information, the host, the path,
    the search and the hash. *)
Lemma format_shape pf u scheme :
  scheme = "ws:" \/ scheme = "wss:" ->
  protocol u = Some scheme ->
  truthy (host u) = true ->
  URL.format pf u
  = scheme ++ (if doubleSlash pf u then "//" else "") ++ shownAuth pf u
    ++ orEmpty (host u) ++ shownPath pf u ++ shownSearch u ++ shownHash u.
Proof.
  intros Hs Hp Hh. unfold URL.format.
  fold (shownAuth pf u). fold (escapedPath u). fold (shownHash u).
  fold (shownSearch u).
  rewrite Hh, Hp. unfold shownPath, doubleSlash.
  assert (Hne : nonEmpty (shownAuth pf u ++ orEmpty (host u)) = true)
    by (apply nonEmpty_append_r; now destruct (host u)).
  assert (Hsl : slashedProtocol pf (Some scheme) = slashedWs pf)
    by now apply slashedProtocol_ws.
  assert (Hpr : (if nonEmpty (orEmpty (Some scheme))
                    && negb (endsWithChar ":" (orEmpty (Some scheme)))
                 then orEmpty (Some scheme) ++ ":"
                 else orEmpty (Some scheme)) = scheme)
    by (destruct Hs as [-> | ->]; reflexivity).
  rewrite Hpr, Hsl, Hne, orb_true_r.
  destruct (slashes u || slashedWs pf); cbn [andb];
    now rewrite ?append_assoc.
Qed.

(** ** [parseUrl]: the shape of the result *)

(** What the specification says of a string that [parseUrl] returns, read
    of the string alone: it is one of the two schemes, the two slashes
    behind which a URL has its host, a host that is not empty, and a path
    that is not empty, which begins with a slash. *)
Definition hasSchemeHostPath (s : string) : Prop :=
  exists scheme host path,
    s = scheme ++ "//" ++ host ++ path
    /\ (scheme = "ws:" \/ scheme = "wss:")
    /\ nonEmpty host = true
    /\ startsWith "/" path = true.




Lemma parseUrl_Return pf input defaultPath s :
  parseUrl pf input defaultPath = Return s ->
  unsupportedProtocol input = false /\
  exists u0,
    URL.parse pf (urlToParse input) = Return u0
    /\ truthy (host u0) = true
    /\ serverUrl pf input defaultPath
       = Return (setPathname (if truthy (pathname u0)
                              then pathname u0 else Some defaultPath)
                   (setProtocol (if truthy (protocol u0)
                                 then protocol u0 else Some "ws:") u0))
    /\ s = URL.format pf
             (setPathname (if truthy (pathname u0)
                           then pathname u0 else Some defaultPath)
                (setProtocol (if truthy (protocol u0)
                              then protocol u0 else Some "ws:") u0)).
Proof.
  intros H. destruct (unsupportedProtocol input) eqn:E.
  - now rewrite (parseUrl_unsupported _ _ _ E) in H.
  - split; [reflexivity|]. rewrite (parseUrl_supported _ _ _ E) in H.
    unfold serverUrl. rewrite E.
    destruct (URL.parse pf (urlToParse input)) as [u0| |]; simpl in *;
      try discriminate.
    destruct (truthy (host u0)) eqn:Hh; [|discriminate].
    injection H as <-. exists u0. now rewrite Hh.
Qed.








(** ** [parseUrl] on canonical URLs *)

(** The code units of a canonical host name: lower-case letters, digits,
    dot, hyphen, plus and underscore. *)
Definition isCanonicalHostChar (c : ascii) : bool :=
  isLower c || isDigit c || codeIs 46 c || codeIs 45 c || codeIs 43 c
  || codeIs 95 c.

(** The code units of a canonical path: the printable ASCII characters but
    the quotes, the angle and curly brackets, the number sign, the question
    mark, the back slash, the circumflex, the grave accent and the bar. *)
Definition isCanonicalPathChar (c : ascii) : bool :=
  codeIn 33 126 c
  && negb (codeIs 34 c || codeIs 35 c || codeIs 39 c || codeIs 60 c
           || codeIs 62 c || codeIs 63 c || codeIs 92 c || codeIs 94 c
           || codeIs 96 c || codeIs 123 c || codeIs 124 c || codeIs 125 c).

(** A host name with its port, when it has one. *)
Definition hostWithPort (hostname port : string) : string :=
  hostname ++ (if nonEmpty port then ":" ++ port else "").

(** A canonical URL: one of the two schemes, two slashes, a host name of at
    most 255 canonical code units that is not empty and that the conversion
    of the platform leaves as it is, a port (a colon and digits) or none,
    and a path that begins with a slash and holds canonical code units. *)
Inductive canonicalUrl (pf : Platform) : string -> Prop :=
| canonical_url (scheme hostname port path : string) :
    scheme = "ws:" \/ scheme = "wss:" ->
    nonEmpty hostname = true ->
    all isCanonicalHostChar hostname = true ->
    String.length hostname <= 255 ->
    toASCII pf hostname = Return hostname ->
    all isDigit port = true ->
    all isCanonicalPathChar path = true ->
    canonicalUrl pf
      (scheme ++ "//" ++ hostWithPort hostname port ++ "/" ++ path).

Ltac by_cases_on_char :=
  let c := fresh "c" in
  intros c; destruct c as [[] [] [] [] [] [] [] []];
  vm_compute; intros; (reflexivity || discriminate).

Lemma hostChar_pathChar c :
  isCanonicalHostChar c = true -> isCanonicalPathChar c = true.
Proof. revert c. by_cases_on_char. Qed.

Lemma digit_pathChar c : isDigit c = true -> isCanonicalPathChar c = true.
Proof. revert c. by_cases_on_char. Qed.

Lemma pathChar_not_trimmed c :
  isCanonicalPathChar c = true -> isTrimmed c = false.
Proof. revert c. by_cases_on_char. Qed.

Lemma pathChar_not_backslash c :
  isCanonicalPathChar c = true -> codeIs 92 c = false.
Proof. revert c. by_cases_on_char. Qed.

Lemma pathChar_not_hash c :
  isCanonicalPathChar c = true -> codeIs 35 c = false.
Proof. revert c. by_cases_on_char. Qed.

Lemma pathChar_not_question c :
  isCanonicalPathChar c = true -> codeIs 63 c = false.
Proof. revert c. by_cases_on_char. Qed.

Lemma pathChar_not_escaped c :
  isCanonicalPathChar c = true ->
  (if isAutoEscaped c then percent c else String c "") = String c "".
Proof. revert c. by_cases_on_char. Qed.

Lemma pathChar_not_rewritten c :
  isCanonicalPathChar c = true ->
  (if codeIs 35 c then "%23" else if codeIs 63 c then "%3F" else String c "")
  = String c "".
Proof. revert c. by_cases_on_char. Qed.

Lemma hostChar_not_colon c :
  isCanonicalHostChar c = true -> codeIs 58 c = false.
Proof. revert c. by_cases_on_char. Qed.

Lemma hostChar_valid c :
  isCanonicalHostChar c = true -> negb (isValidHostChar c) = false.
Proof. revert c. by_cases_on_char. Qed.

Lemma hostChar_lower c : isCanonicalHostChar c = true -> lowerChar c = c.
Proof. revert c. by_cases_on_char. Qed.

Lemma hostChar_not_bracket c :
  isCanonicalHostChar c = true ->
  forall h, startsWith "[" (String c h) = false.
Proof. revert c. by_cases_on_char. Qed.

(** The code units that the scan for the end of the host steps over. *)
Definition isHostScanned (c : ascii) : bool :=
  negb (isHostEnding c) && negb (isNeverHost c) && negb (codeIs 64 c).

Lemma hostChar_scanned c :
  isCanonicalHostChar c = true -> isHostScanned c = true.
Proof. revert c. by_cases_on_char. Qed.

Lemma digit_scanned c : isDigit c = true -> isHostScanned c = true.
Proof. revert c. by_cases_on_char. Qed.

Lemma trimEnd_id (s : string) :
  all (fun c => negb (isTrimmed c)) s = true -> trimEnd s = s.
Proof.
  induction s as [|c s IH]; simpl; [reflexivity|]. intros H.
  apply andb_true_iff in H as [Hc Hs]. rewrite (IH Hs).
  apply negb_true_iff in Hc. rewrite Hc. now destruct s.
Qed.

Lemma convertBackslashes_id (s : string) :
  all (fun c => negb (codeIs 92 c)) s = true -> convertBackslashes s = s.
Proof.
  induction s as [|c s IH]; simpl; [reflexivity|]. intros H.
  apply andb_true_iff in H as [Hc Hs]. apply negb_true_iff in Hc.
  rewrite Hc, (IH Hs). now destruct (isSplit c).
Qed.

Lemma scanHost_scanned (a b : string) i atSign nonHost :
  all isHostScanned a = true ->
  scanHost (a ++ b) i atSign nonHost
  = scanHost b (i + String.length a) atSign nonHost.
Proof.
  revert i. induction a as [|c a IH]; simpl; intros i H.
  - now rewrite Nat.add_0_r.
  - apply andb_true_iff in H as [Hc Ha]. unfold isHostScanned in Hc.
    apply andb_true_iff in Hc as [Hc H3]. apply andb_true_iff in Hc as [H1 H2].
    apply negb_true_iff in H1, H2, H3. rewrite H1, H2, H3, (IH _ Ha).
    now rewrite Nat.add_succ_r.
Qed.

Lemma portPattern_none (h : string) :
  any (codeIs 58) h = false -> portPattern h = None.
Proof.
  induction h as [|c h IH]; simpl; [reflexivity|]. intros H.
  apply orb_false_iff in H as [Hc Hh]. now rewrite Hc, (IH Hh).
Qed.

Lemma portPattern_port (h p : string) :
  any (codeIs 58) h = false -> all isDigit p = true ->
  portPattern (h ++ String ":" p) = Some (String.length h).
Proof.
  intros Hh Hp. induction h as [|c h IH]; simpl.
  - now rewrite Hp.
  - simpl in Hh. apply orb_false_iff in Hh as [Hc Hh].
    now rewrite Hc, (IH Hh).
Qed.

Lemma parseHost_canonical (hostname port : string) :
  nonEmpty hostname = true ->
  all isCanonicalHostChar hostname = true ->
  all isDigit port = true ->
  parseHost (hostWithPort hostname port)
  = (someIfNonEmpty port, Some hostname).
Proof.
  intros Hne Hh Hp. unfold parseHost, hostWithPort.
  assert (Hc : any (codeIs 58) hostname = false)
    by (eapply all_none; [apply hostChar_not_colon | exact Hh]).
  destruct port as [|d port]; simpl nonEmpty; cbv iota.
  - rewrite append_empty_r, (portPattern_none _ Hc), Hne. reflexivity.
  - change (":" ++ String d port) with (String ":" (String d port)).
    rewrite (portPattern_port _ _ Hc Hp), drop_append, take_append, Hne.
    reflexivity.
Qed.

Lemma getHostname_canonical (rest hostname : string) :
  all isCanonicalHostChar hostname = true ->
  getHostname rest hostname = (hostname, rest).
Proof.
  intros Hh. unfold getHostname. rewrite break_none; [reflexivity|].
  eapply all_none; [apply hostChar_valid | exact Hh].
Qed.

Lemma toLowerCase_canonical (hostname : string) :
  all isCanonicalHostChar hostname = true -> toLowerCase hostname = hostname.
Proof. apply mapStr_id, hostChar_lower. Qed.

Lemma startsWith_bracket_canonical (hostname : string) :
  all isCanonicalHostChar hostname = true -> startsWith "[" hostname = false.
Proof.
  destruct hostname as [|c h]; [reflexivity|]. simpl. intros H.
  apply andb_true_iff in H as [Hc _]. now apply hostChar_not_bracket.
Qed.

Lemma hostWithPort_scanned (hostname port : string) :
  all isCanonicalHostChar hostname = true ->
  all isDigit port = true ->
  all isHostScanned (hostWithPort hostname port) = true.
Proof.
  intros Hh Hp. unfold hostWithPort.
  rewrite all_append, (all_weaken _ _ _ hostChar_scanned Hh).
  destruct (nonEmpty port); [|reflexivity]. simpl.
  exact (all_weaken _ _ _ digit_scanned Hp).
Qed.

Lemma hostWithPort_chars (hostname port : string) :
  all isCanonicalHostChar hostname = true ->
  all isDigit port = true ->
  all isCanonicalPathChar (hostWithPort hostname port) = true.
Proof.
  intros Hh Hp. unfold hostWithPort.
  rewrite all_append, (all_weaken _ _ _ hostChar_pathChar Hh).
  destruct (nonEmpty port); [|reflexivity]. simpl.
  exact (all_weaken _ _ _ digit_pathChar Hp).
Qed.

(** The host of a canonical URL. *)
Lemma readHost_canonical pf au (hostname port rest : string) :
  nonEmpty hostname = true ->
  all isCanonicalHostChar hostname = true ->
  String.length hostname <= 255 ->
  toASCII pf hostname = Return hostname ->
  all isDigit port = true ->
  readHost pf au (hostWithPort hostname port) rest
  = Return
      {| a_auth := au;
         a_host := hostWithPort hostname port;
         a_port := someIfNonEmpty port;
         a_hostname := hostname;
         a_rest := rest |}.
Proof.
  intros Hne Hh Hlen Hid Hp. unfold readHost.
  rewrite (parseHost_canonical _ _ Hne Hh Hp). cbn [orEmpty].
  rewrite (startsWith_bracket_canonical _ Hh). cbn [andb].
  rewrite (getHostname_canonical _ _ Hh).
  destruct (Nat.ltb_spec hostnameMaxLen (String.length hostname)) as [L|_];
    [unfold hostnameMaxLen in L; lia|].
  rewrite (toLowerCase_canonical _ Hh), Hid. cbn [bind].
  unfold someIfNonEmpty, hostWithPort. now destruct port.
Qed.

Lemma scanned_not_stripped c :
  isHostScanned c = true -> isHostEnding c = false /\ isTabOrLineEnd c = false.
Proof.
  destruct c as [[] [] [] [] [] [] [] []]; vm_compute; intros H;
    try discriminate H; split; reflexivity.
Qed.

(** Nothing is taken out of a host of canonical code units. *)
Lemma stripInHost_scanned (a b : string) :
  all isHostScanned a = true ->
  b = "" \/ startsWith "/" b = true ->
  stripInHost (a ++ b) = a ++ b.
Proof.
  intros Ha Hb. induction a as [|c a IH]; simpl.
  - destruct Hb as [-> | Hb]; [reflexivity|].
    apply startsWith_inv in Hb as [r ->]. reflexivity.
  - simpl in Ha. apply andb_true_iff in Ha as [Hc Ha].
    destruct (scanned_not_stripped c Hc) as [-> ->]. now rewrite (IH Ha).
Qed.

Lemma hostSection_scanned pf (a b : string) :
  all isHostScanned a = true ->
  b = "" \/ startsWith "/" b = true ->
  (if stripsTabs pf then stripInHost (a ++ b) else a ++ b) = a ++ b.
Proof.
  intros Ha Hb. destruct (stripsTabs pf); [|reflexivity].
  now apply stripInHost_scanned.
Qed.

(** The authority of a canonical URL. *)
Lemma parseAuthority_canonical pf (hostname port path : string) :
  nonEmpty hostname = true ->
  all isCanonicalHostChar hostname = true ->
  String.length hostname <= 255 ->
  toASCII pf hostname = Return hostname ->
  all isDigit port = true ->
  parseAuthority pf (hostWithPort hostname port ++ String "/" path)
  = Return
      {| a_auth := None;
         a_host := hostWithPort hostname port;
         a_port := someIfNonEmpty port;
         a_hostname := hostname;
         a_rest := String "/" path |}.
Proof.
  intros Hne Hh Hlen Hid Hp.
  set (hp := hostWithPort hostname port).
  assert (Hscan : scanHost (hp ++ String "/" path) 0 None None
                  = (None, Some (String.length hp))).
  { rewrite scanHost_scanned; [reflexivity|].
    now apply hostWithPort_scanned. }
  unfold parseAuthority.
  rewrite (hostSection_scanned pf hp (String "/" path))
    by (try (now apply hostWithPort_scanned);
        right; apply (startsWith_append "/")).
  rewrite Hscan. cbn [bind].
  unfold slice. rewrite Nat.sub_0_r. cbn [drop].
  rewrite take_append, drop_append.
  now apply readHost_canonical.
Qed.

Section Canonical.

Variable pf : Platform.
Variables scheme hn pt pth : string.
Hypothesis Hscheme : scheme = "ws:" \/ scheme = "wss:".
Hypothesis Hne : nonEmpty hn = true.
Hypothesis Hhost : all isCanonicalHostChar hn = true.
Hypothesis Hlen : String.length hn <= 255.
Hypothesis Hidna : toASCII pf hn = Return hn.
Hypothesis Hport : all isDigit pt = true.
Hypothesis Hpath : all isCanonicalPathChar pth = true.

Let hostPort : string := hostWithPort hn pt.

Let parsed : Url :=
  {| protocol := Some scheme;
     slashes := true;
     auth := None;
     host := Some hostPort;
     port := someIfNonEmpty pt;
     hostname := Some hn;
     hash := None;
     search := None;
     query := None;
     pathname := Some (String "/" pth);
     path := Some (String "/" pth);
     href := None |}.

Lemma canonical_chars :
  all isCanonicalPathChar (String "/" (String "/" (hostPort ++ String "/" pth)))
  = true.
Proof.
  simpl. unfold hostPort.
  rewrite all_append, (hostWithPort_chars _ _ Hhost Hport). simpl.
  exact Hpath.
Qed.

Lemma afterProtocol_canonical :
  afterProtocol pf (Some scheme)
    (String "/" (String "/" (hostPort ++ String "/" pth)))
  = Return (setHref (Some (URL.format pf parsed)) parsed).
Proof.
  unfold afterProtocol.
  pose proof Hscheme as Hs.
  assert (Hhl : hostlessProtocol (Some scheme) = false)
    by (destruct Hs as [-> | ->]; reflexivity).
  assert (Hlow : option_map toLowerCase (Some scheme) = Some scheme)
    by (destruct Hs as [-> | ->]; reflexivity).
  assert (Htr : truthy (Some scheme) = true)
    by (destruct Hs as [-> | ->]; reflexivity).
  clear Hs.
  rewrite Hlow, Hhl, Htr.
  change (String "/" (String "/" (hostPort ++ String "/" pth)))
    with ("//" ++ hostPort ++ String "/" pth).
  rewrite startsWith_append.
  change (drop 2 ("//" ++ hostPort ++ String "/" pth))
    with (hostPort ++ String "/" pth).
  cbn [andb negb orb].
  unfold hostPort.
  rewrite (parseAuthority_canonical pf _ _ _ Hne Hhost Hlen Hidna Hport).
  cbn [bind a_rest a_auth a_host a_port a_hostname option_map].
  change (unsafeProtocol (Some scheme)) with (hostlessProtocol (Some scheme)).
  rewrite Hhl. unfold autoEscapeStr.
  assert (Hp' : all isCanonicalPathChar (String "/" pth) = true)
    by (simpl; exact Hpath).
  rewrite (flatMap_id _ _ _ pathChar_not_escaped Hp').
  rewrite (break_none (codeIs 35)) by
    (eapply all_none; [apply pathChar_not_hash | exact Hp']).
  rewrite (break_none (codeIs 63)) by
    (eapply all_none; [apply pathChar_not_question | exact Hp']).
  cbn [andb negb orb nonEmpty someIfNonEmpty truthy orEmpty].
  rewrite !andb_false_r, append_empty_r. reflexivity.
Qed.

Lemma parse_canonical :
  URL.parse pf (scheme ++ "//" ++ hostPort ++ "/" ++ pth)
  = Return (setHref (Some (URL.format pf parsed)) parsed).
Proof.
  assert (Hx : convertBackslashes
                 (trimEnd (String "/" (String "/" (hostPort ++ String "/" pth))))
               = String "/" (String "/" (hostPort ++ String "/" pth))).
  { rewrite trimEnd_id, convertBackslashes_id; [reflexivity| |].
    - eapply all_weaken; [|exact canonical_chars]. intros c Hc.
      now rewrite (pathChar_not_backslash _ Hc).
    - eapply all_weaken; [|exact canonical_chars]. intros c Hc.
      now rewrite (pathChar_not_trimmed _ Hc). }
  assert (Hparse : forall x,
             URL.parse pf (scheme ++ x)
             = afterProtocol pf (Some scheme)
                 (convertBackslashes (trimEnd x))).
  { intros x. pose proof Hscheme as Hs.
    destruct Hs as [E | E]; rewrite E; [apply parse_ws | apply parse_wss]. }
  change ("//" ++ hostPort ++ "/" ++ pth)
    with (String "/" (String "/" (hostPort ++ String "/" pth))).
  rewrite Hparse, Hx. apply afterProtocol_canonical.
Qed.

Lemma format_canonical :
  URL.format pf parsed = scheme ++ "//" ++ hostPort ++ "/" ++ pth.
Proof.
  assert (Hp' : all isCanonicalPathChar (String "/" pth) = true)
    by (simpl; exact Hpath).
  assert (Hesc : escapedPath parsed = String "/" pth).
  { unfold escapedPath. simpl orEmpty.
    exact (flatMap_id _ _ _ pathChar_not_rewritten Hp'). }
  rewrite (format_shape pf parsed scheme Hscheme eq_refl).
  - unfold shownAuth, shownPath, shownSearch, shownHash, doubleSlash.
    rewrite Hesc.
    rewrite (startsWith_append "/" pth : startsWith "/" (String "/" pth) = true).
    simpl. now rewrite !append_empty_r.
  - simpl. unfold hostPort, hostWithPort. now apply nonEmpty_append_l.
Qed.

Lemma parseUrl_canonical defaultPath :
  parseUrl pf (scheme ++ "//" ++ hostPort ++ "/" ++ pth) defaultPath
  = Return (scheme ++ "//" ++ hostPort ++ "/" ++ pth).
Proof.
  pose proof Hscheme as Hs.
  rewrite parseUrl_supported by (destruct Hs as [-> | ->]; reflexivity).
  assert (Hu : urlToParse (scheme ++ "//" ++ hostPort ++ "/" ++ pth)
               = scheme ++ "//" ++ hostPort ++ "/" ++ pth)
    by (destruct Hs as [-> | ->]; reflexivity).
  rewrite Hu, parse_canonical. cbn [bind].
  assert (Hh : truthy (host (setHref (Some (URL.format pf parsed)) parsed))
               = true)
    by (simpl; unfold hostPort, hostWithPort; now apply nonEmpty_append_l).
  rewrite Hh.
  assert (Hp : truthy (protocol (setHref (Some (URL.format pf parsed)) parsed))
               = true)
    by (destruct Hs as [E | E]; simpl; now rewrite E).
  rewrite Hp. cbn [pathname setHref truthy nonEmpty].
  rewrite <- format_canonical. reflexivity.
Qed.

End Canonical.

(** C4, as the specification states it, fails: a URL of a scheme, a host
    and an explicit path is not always returned unchanged.  The host name
    comes back in lower case, and a space in the path comes back escaped,
    on either platform. *)
Lemma parseUrl_canonical_counterexample :
  hasSchemeHostPath "ws://Example.com/x"
  /\ parseUrl samplePlatform "ws://Example.com/x" "/socket"
     = Return "ws://example.com/x"
  /\ parseUrl modernPlatform "ws://Example.com/x" "/socket"
     = Return "ws://example.com/x"
  /\ parseUrl samplePlatform "ws://Example.com/x" "/socket"
     <> Return "ws://Example.com/x"
  /\ hasSchemeHostPath "ws://example.com/a b"
  /\ parseUrl samplePlatform "ws://example.com/a b" "/socket"
     = Return "ws://example.com/a%20b"
  /\ parseUrl modernPlatform "ws://example.com/a b" "/socket"
     = Return "ws://example.com/a%20b".
Proof.
  split; [exists "ws:", "Example.com", "/x"; repeat split; now left|].
  split; [reflexivity|]. split; [reflexivity|].
  split; [vm_compute; discriminate|].
  split; [exists "ws:", "example.com", "/a b"; repeat split; now left|].
  split; reflexivity.
Qed.

(** C4, amended. [parseUrl] leaves a canonical URL as it is, whatever the
    default path: one of the two schemes, two slashes, a host name in lower
    case (letters, digits, dot, hyphen, plus and underscore) that the
    conversion of the platform leaves as it is, a port of digits or none,
    and an explicit path of printable code units that the parser neither
    escapes nor splits at.  So
    [parseUrl("ws://example.com:9000/custom", "/socket")] is
    [ws://example.com:9000/custom]. *)
Theorem parseUrl_canonical_unchanged :
  forall pf url defaultPath,
    canonicalUrl pf url ->
    parseUrl pf url defaultPath = Return url
    /\ parseUrl pf "ws://example.com:9000/custom" "/socket"
       = Return "ws://example.com:9000/custom".
Proof.
  intros pf url defaultPath H. split.
  - destruct H as [scheme hn pt pth Hs Hne Hh Hl Hi Hp Hpa].
    exact (parseUrl_canonical pf scheme hn pt pth Hs Hne Hh Hl Hi Hp Hpa
             defaultPath).
  - exact (parseUrl_canonical pf "ws:" "example.com" "9000" "custom"
             (or_introl eq_refl) eq_refl eq_refl
             ltac:(simpl; lia) eq_refl eq_refl eq_refl "/socket").
Qed.

Lemma parseUrl_canonical_unchanged_witness :
  canonicalUrl samplePlatform "ws://example.com:9000/custom"
  /\ parseUrl samplePlatform "ws://example.com:9000/custom" "/socket"
     = Return "ws://example.com:9000/custom"
  /\ canonicalUrl modernPlatform "wss://node1.example.com/a/b.c"
  /\ parseUrl modernPlatform "wss://node1.example.com/a/b.c" "/socket"
     = Return "wss://node1.example.com/a/b.c".
Proof.
  assert (C : canonicalUrl samplePlatform "ws://example.com:9000/custom").
  { apply (canonical_url samplePlatform "ws:" "example.com" "9000" "custom");
      [now left | reflexivity | reflexivity | simpl; lia | reflexivity
      | reflexivity | reflexivity]. }
  assert (D : canonicalUrl modernPlatform "wss://node1.example.com/a/b.c").
  { apply (canonical_url modernPlatform "wss:" "node1.example.com" ""
             "a/b.c");
      [now right | reflexivity | reflexivity | simpl; lia | reflexivity
      | reflexivity | reflexivity]. }
  split; [exact C|]. split.
  - exact (proj1 (parseUrl_canonical_unchanged samplePlatform
                    "ws://example.com:9000/custom" "/socket" C)).
  - split; [exact D|].
    exact (proj1 (parseUrl_canonical_unchanged modernPlatform
                    "wss://node1.example.com/a/b.c" "/socket" D)).
Defined.

(** ** [parseUrl] on a URL without a path *)

Section WithoutPath.

Variable pf : Platform.
Variables scheme hn pt dp : string.
Hypothesis Hscheme : scheme = "ws:" \/ scheme = "wss:".
Hypothesis Hne : nonEmpty hn = true.
Hypothesis Hhost : all isCanonicalHostChar hn = true.
Hypothesis Hlen : String.length hn <= 255.
Hypothesis Hidna : toASCII pf hn = Return hn.
Hypothesis Hport : all isDigit pt = true.
Hypothesis Hpath : all isCanonicalPathChar dp = true.

Let hostPort : string := hostWithPort hn pt.

(** The URL object of [scheme//host:port]: its path is [/] where the scheme
    is a slashed protocol and [null] where it is not. *)
Let parsed : Url :=
  {| protocol := Some scheme;
     slashes := true;
     auth := None;
     host := Some hostPort;
     port := someIfNonEmpty pt;
     hostname := Some hn;
     hash := None;
     search := None;
     query := None;
     pathname := if slashedWs pf then Some "/" else None;
     path := if slashedWs pf then Some "/" else None;
     href := None |}.

Lemma parseAuthority_without_path :
  parseAuthority pf hostPort
  = Return
      {| a_auth := None;
         a_host := hostPort;
         a_port := someIfNonEmpty pt;
         a_hostname := hn;
         a_rest := "" |}.
Proof.
  assert (Hscan : scanHost hostPort 0 None None = (None, None)).
  { rewrite <- (append_empty_r hostPort).
    now rewrite (scanHost_scanned _ _ _ _ _
                   (hostWithPort_scanned _ _ Hhost Hport)). }
  pose proof (hostSection_scanned pf hostPort ""
                (hostWithPort_scanned _ _ Hhost Hport) (or_introl eq_refl))
    as Hstrip.
  rewrite append_empty_r in Hstrip.
  unfold parseAuthority. rewrite Hstrip, Hscan. cbn [bind drop].
  now apply readHost_canonical.
Qed.

Lemma parse_without_path :
  URL.parse pf (scheme ++ "//" ++ hostPort)
  = Return (setHref (Some (URL.format pf parsed)) parsed).
Proof.
  assert (Hc : all isCanonicalPathChar (String "/" (String "/" hostPort))
               = true)
    by (simpl; exact (hostWithPort_chars _ _ Hhost Hport)).
  assert (Hx : convertBackslashes (trimEnd (String "/" (String "/" hostPort)))
               = "//" ++ hostPort).
  { rewrite trimEnd_id, convertBackslashes_id; [reflexivity| |].
    - eapply all_weaken; [|exact Hc]. intros c Hc'.
      now rewrite (pathChar_not_backslash _ Hc').
    - eapply all_weaken; [|exact Hc]. intros c Hc'.
      now rewrite (pathChar_not_trimmed _ Hc'). }
  pose proof Hscheme as Hs.
  assert (Hparse : URL.parse pf (scheme ++ "//" ++ hostPort)
                   = afterProtocol pf (Some scheme) ("//" ++ hostPort)).
  { destruct Hs as [E | E]; rewrite E;
      [rewrite parse_ws | rewrite parse_wss];
      change ("//" ++ hostPort) with (String "/" (String "/" hostPort));
      now rewrite Hx. }
  rewrite Hparse. unfold afterProtocol.
  assert (Hhl : hostlessProtocol (Some scheme) = false)
    by (destruct Hs as [-> | ->]; reflexivity).
  assert (Hlow : option_map toLowerCase (Some scheme) = Some scheme)
    by (destruct Hs as [-> | ->]; reflexivity).
  assert (Htr : truthy (Some scheme) = true)
    by (destruct Hs as [-> | ->]; reflexivity).
  rewrite Hlow, Hhl, Htr, startsWith_append.
  change (drop 2 ("//" ++ hostPort)) with hostPort.
  cbn [andb negb orb].
  rewrite parseAuthority_without_path.
  cbn [bind a_rest a_auth a_host a_port a_hostname option_map].
  change (unsafeProtocol (Some scheme)) with (hostlessProtocol (Some scheme)).
  rewrite Hhl, (slashedProtocol_ws pf scheme Hscheme).
  cbn [autoEscapeStr flatMap break truthy]. rewrite Hne.
  unfold parsed. now destruct (slashedWs pf).
Qed.

(** The scheme and the host stay; the default path is taken where the
    scheme is not a slashed protocol, and the path is [/] where it is. *)
Lemma parseUrl_without_path :
  parseUrl pf (scheme ++ "//" ++ hostPort) ("/" ++ dp)
  = Return ((scheme ++ "//" ++ hostPort)
            ++ (if slashedWs pf then "/" else "/" ++ dp)).
Proof.
  pose proof Hscheme as Hs.
  rewrite parseUrl_supported by (destruct Hs as [-> | ->]; reflexivity).
  assert (Hu : urlToParse (scheme ++ "//" ++ hostPort)
               = scheme ++ "//" ++ hostPort)
    by (destruct Hs as [-> | ->]; reflexivity).
  rewrite Hu, parse_without_path. cbn [bind].
  assert (Hh : nonEmpty hostPort = true)
    by (unfold hostPort, hostWithPort; now apply nonEmpty_append_l).
  assert (Hp : truthy (Some scheme) = true)
    by (destruct Hs as [-> | ->]; reflexivity).
  cbn [host protocol pathname setHref parsed truthy]. rewrite Hh.
  cbn [truthy] in Hp. rewrite Hp. cbn [negb].
  assert (Hp' : all isCanonicalPathChar (String "/" dp) = true)
    by (simpl; exact Hpath).
  match goal with
  | |- Return (URL.format pf ?u) = _ =>
      rewrite (format_shape pf u scheme Hscheme eq_refl); [|exact Hh]
  end.
  unfold shownAuth, shownPath, shownSearch, shownHash, escapedPath,
    doubleSlash.
  cbn [auth host pathname search hash slashes setPathname setProtocol
       setHref parsed truthy orEmpty orb].
  change ("/" ++ dp) with (String "/" dp).
  destruct (slashedWs pf).
  - simpl. now rewrite ?append_empty_r, ?append_assoc.
  - cbn [truthy orEmpty].
    rewrite (flatMap_id _ _ _ pathChar_not_rewritten Hp').
    rewrite (startsWith_append "/" dp : startsWith "/" (String "/" dp) = true).
    simpl. now rewrite !append_empty_r, !append_assoc.
Qed.

End WithoutPath.

(** C6, as the specification states it, fails on a platform whose slashed
    protocols hold wss: there [URL.parse] gives the URL the path [/], line
    158 does not take the default path, and
    [parseUrl("wss://example.com:9000", "/socket")] is
    [wss://example.com:9000/]. *)
Lemma parseUrl_defaults_path_counterexample :
  parseUrl modernPlatform "wss://example.com:9000" "/socket"
  = Return "wss://example.com:9000/"
  /\ parseUrl modernPlatform "wss://example.com:9000" "/socket"
     <> Return "wss://example.com:9000/socket".
Proof. split; [reflexivity | vm_compute; discriminate]. Qed.

(** C6, amended. A secure scheme and a host with a port but no path: the
    scheme and the host stay, and the path is the default path on a
    platform whose slashed protocols do not hold wss, and [/] on a platform
    whose slashed protocols do.  This for every canonical host name that the
    conversion of the platform leaves as it is, every port and every
    canonical default path. *)
Theorem parseUrl_defaults_path :
  forall pf hostname port defaultPath,
    nonEmpty hostname = true ->
    all isCanonicalHostChar hostname = true ->
    String.length hostname <= 255 ->
    toASCII pf hostname = Return hostname ->
    nonEmpty port = true ->
    all isDigit port = true ->
    all isCanonicalPathChar defaultPath = true ->
    parseUrl pf ("wss://" ++ hostname ++ ":" ++ port) ("/" ++ defaultPath)
    = Return ("wss://" ++ hostname ++ ":" ++ port
              ++ (if slashedWs pf then "/" else "/" ++ defaultPath)).
Proof.
  intros pf hn pt dp Hne Hh Hl Hi Hpn Hp Hd.
  pose proof (parseUrl_without_path pf "wss:" hn pt dp (or_intror eq_refl)
                Hne Hh Hl Hi Hp Hd) as P.
  cbv zeta in P. unfold hostWithPort in P. rewrite Hpn in P.
  rewrite !append_assoc in P. exact P.
Qed.

Lemma parseUrl_defaults_path_witness :
  parseUrl samplePlatform "wss://example.com:9000" "/socket"
  = Return "wss://example.com:9000/socket"
  /\ parseUrl modernPlatform "wss://example.com:9000" "/socket"
     = Return "wss://example.com:9000/".
Proof.
  split.
  - apply (parseUrl_defaults_path samplePlatform "example.com" "9000"
             "socket"); solve [reflexivity | simpl; lia].
  - apply (parseUrl_defaults_path modernPlatform "example.com" "9000"
             "socket"); solve [reflexivity | simpl; lia].
Defined.

(** ** [parseUrl] on an input without a scheme *)




(** ** The timer wrappers *)

(** What a wrapper [f] with the body [body] does on the machine, for a
    callback, a duration and a number [n] of steps.  When the duration is
    [null] the body is the result -1, the call returns it in two steps and
    no state on the way calls a timer of the platform.  When the duration is
    not [null] the body calls [f] again with the same arguments: after [n]
    steps the same call is at hand, [n] calls wait for it, nothing has been
    returned and no timer of the platform has been called. *)
Definition recursesUnlessNull (f : callee) (body : value -> value -> action)
    (callback duration : value) (n : nat) : Prop :=
  (body callback VNull = Result (VNumber (-1))
   /\ steps 2 (enter f callback VNull)
      = Some {| now := Result (VNumber (-1)); waiting := [] |}
   /\ returned {| now := Result (VNumber (-1)); waiting := [] |}
      = Some (VNumber (-1))
   /\ (forall m, steps n (enter f callback VNull) = Some m ->
       callsPlatform m = false))
  /\ (strictEquals duration VNull = false ->
      body callback duration = Call f callback duration
      /\ steps n (enter f callback duration)
         = Some {| now := Call f callback duration; waiting := repeat f n |}
      /\ (forall m, steps n (enter f callback duration) = Some m ->
          returned m = None /\ callsPlatform m = false)).

Lemma steps_diverge (f : callee) (callback duration : value) :
  f = ExportsSetTimeout \/ f = ExportsSetInterval ->
  strictEquals duration VNull = false ->
  forall n stack,
    steps n {| now := Call f callback duration; waiting := stack |}
    = Some {| now := Call f callback duration;
              waiting := repeat f n ++ stack |}.
Proof.
  intros Hf Hd n. induction n as [|n IH]; intros stack; [reflexivity|].
  cbn [steps]. unfold step. cbn [now waiting].
  destruct Hf as [-> | ->]; unfold setTimeout, setInterval; rewrite Hd;
    cbn [negb]; rewrite IH; cbn [repeat];
    now rewrite (repeat_cons n), <- app_assoc.
Qed.

Lemma steps_null (f : callee) (callback : value) :
  f = ExportsSetTimeout \/ f = ExportsSetInterval ->
  forall n m,
    steps n (enter f callback VNull) = Some m -> callsPlatform m = false.
Proof.
  intros Hf n m.
  destruct n as [|[|[|n]]]; destruct Hf as [-> | ->]; cbn;
    intros [= <-] || discriminate; reflexivity.
Qed.

Lemma recursesUnlessNull_holds f body callback duration n :
  (f = ExportsSetTimeout /\ body = setTimeout)
  \/ (f = ExportsSetInterval /\ body = setInterval) ->
  recursesUnlessNull f body callback duration n.
Proof.
  intros Hf.
  assert (Hf' : f = ExportsSetTimeout \/ f = ExportsSetInterval)
    by (destruct Hf as [[-> _] | [-> _]]; auto).
  split.
  - split; [destruct Hf as [[_ ->] | [_ ->]]; reflexivity|].
    split; [destruct Hf as [[-> _] | [-> _]]; reflexivity|].
    split; [reflexivity|]. now apply steps_null.
  - intros Hd.
    split.
    { destruct Hf as [[-> ->] | [-> ->]];
        unfold setTimeout, setInterval; now rewrite Hd. }
    pose proof (steps_diverge f callback duration Hf' Hd n []) as S.
    rewrite app_nil_r in S. split; [exact S|].
    intros m Hm. unfold enter in Hm. rewrite S in Hm. injection Hm as <-.
    destruct Hf' as [-> | ->]; split; reflexivity.
Qed.

(** C8. For every callback, the [setTimeout] wrapper called with the
    duration [null] returns -1 and calls no timer; called with any other
    duration it calls itself with the same arguments instead of the timer of
    the platform, so the call never returns: after any number of steps the
    same call is at hand and one more call waits for it.  The [setInterval]
    wrapper does the same. *)
Theorem timer_wrappers_recurse_unless_null :
  forall callback duration n,
    recursesUnlessNull ExportsSetTimeout setTimeout callback duration n
    /\ recursesUnlessNull ExportsSetInterval setInterval callback duration n.
Proof.
  intros callback duration n.
  split; apply recursesUnlessNull_holds; auto.
Qed.

(** ** The order of the properties of an object *)

Lemma mayPrecede_irrefl k : mayPrecede k k = false.
Proof.
  unfold mayPrecede. destruct (arrayIndex k).
  - apply N.ltb_irrefl.
  - now rewrite String.eqb_refl.
Qed.

Section PropertyOrder.
Context {A : Type}.

Lemma hasKey_preceding (k : string) (ps : list (string * A)) :
  forallb (fun k' => mayPrecede k' k) (keys ps) = true -> hasKey k ps = false.
Proof.
  induction ps as [|[k' v'] ps IH]; simpl; [reflexivity|]. intros H.
  apply andb_true_iff in H as [Hk Hr]. rewrite (IH Hr), orb_false_r.
  destruct (String.eqb_spec k k') as [->|]; [|reflexivity].
  now rewrite mayPrecede_irrefl in Hk.
Qed.

Lemma insertIndex_last (n : N) (k : string) (v : A) (ps : list (string * A)) :
  arrayIndex k = Some n ->
  forallb (fun k' => mayPrecede k' k) (keys ps) = true ->
  insertIndex n k v ps = (ps ++ [(k, v)])%list.
Proof.
  intros Hk. induction ps as [|[k' v'] ps IH]; simpl; [reflexivity|].
  intros H. apply andb_true_iff in H as [Hk' Hr].
  unfold mayPrecede in Hk'. rewrite Hk in Hk'.
  destruct (arrayIndex k') as [m|]; [|discriminate].
  now rewrite Hk', (IH Hr).
Qed.

(** A key that may come behind all the keys of an object is put at the
    end. *)
Lemma setProp_last (k : string) (v : A) (ps : list (string * A)) :
  forallb (fun k' => mayPrecede k' k) (keys ps) = true ->
  setProp k v ps = (ps ++ [(k, v)])%list.
Proof.
  intros H. unfold setProp. rewrite (hasKey_preceding _ _ H).
  destruct (arrayIndex k) as [n|] eqn:E; [|reflexivity].
  now apply insertIndex_last.
Qed.

End PropertyOrder.

Lemma keysOrdered_middle (l1 l2 : list string) (k : string) :
  keysOrdered (l1 ++ k :: l2)%list = true ->
  forallb (fun k' => mayPrecede k' k) l1 = true.
Proof.
  induction l1 as [|x l1 IH]; simpl; [reflexivity|]. intros H.
  apply andb_true_iff in H as [Hx Hr]. rewrite (IH Hr), andb_true_r.
  rewrite forallb_app in Hx. apply andb_true_iff in Hx as [_ Hx].
  simpl in Hx. now apply andb_true_iff in Hx as [Hx _].
Qed.

Lemma keys_app {A : Type} (a b : list (string * A)) :
  keys (a ++ b)%list = (keys a ++ keys b)%list.
Proof. apply map_app. Qed.

(** An own property is found under its key. *)
Lemma getProp_ordered {A : Type} (ps : list (string * A)) k v :
  keysOrdered (keys ps) = true -> In (k, v) ps -> getProp k ps = Some v.
Proof.
  induction ps as [|[k' v'] ps IH]; simpl; [intros _ []|].
  intros H [E | I].
  - injection E as -> ->. now rewrite String.eqb_refl.
  - apply andb_true_iff in H as [Hk Hr].
    destruct (String.eqb_spec k k') as [->|]; [|now apply IH].
    rewrite forallb_forall in Hk.
    assert (Hin : In k' (keys ps)) by (apply (in_map fst _ _ I)).
    specialize (Hk _ Hin). now rewrite mayPrecede_irrefl in Hk.
Qed.

(** Copying the properties of an object one key after the other, in the
    order of [Object.keys], gives the same properties in the same order. *)
Lemma copy_properties (own ps acc : list (string * value)) :
  (forall p, In p ps -> getProp (fst p) own = Some (snd p)) ->
  keysOrdered (keys (acc ++ ps)%list) = true ->
  fold_left
    (fun copy k =>
       setProp k (match getProp k own with
                  | Some v => v
                  | None => VUndefined
                  end) copy)
    (keys ps) acc
  = (acc ++ ps)%list.
Proof.
  revert acc. induction ps as [|[k v] ps IH]; intros acc Hget Hord.
  - simpl. now rewrite app_nil_r.
  - pose proof (Hget (k, v) (or_introl eq_refl)) as Hk. simpl in Hk.
    simpl. rewrite Hk.
    rewrite keys_app in Hord. simpl in Hord.
    rewrite setProp_last by (eapply keysOrdered_middle; exact Hord).
    rewrite IH.
    + now rewrite <- app_assoc.
    + intros p Hp. apply Hget. now right.
    + rewrite <- app_assoc, keys_app. exact Hord.
Qed.

(** ** [shallowCopy] *)

(** An array is copied into a new array of the same elements in the same
    order; an object whose properties are in the order of [Object.keys]
    into a new object with the same keys and, under each key, the same
    value; any input that is not of type object is returned as it is. *)
Lemma shallowCopy_contents (obj : value) (next : nat) :
  match obj with
  | VArray _ elems =>
      shallowCopy obj next = (Return (VArray next elems), S next)
  | VObject _ own =>
      keysOrdered (keys own) = true ->
      shallowCopy obj next = (Return (VObject next own), S next)
  | VNull => True
  | _ => shallowCopy obj next = (Return obj, next)
  end.
Proof.
  destruct obj as [| | | | | |id elems|id own]; try reflexivity;
    try exact I.
  intros H. unfold shallowCopy. cbn [isArray typeof String.eqb].
  rewrite (copy_properties own own []); [reflexivity| |exact H].
  intros [k v] Hp. now apply getProp_ordered.
Qed.

(** C10. The claim fails at [null], which is of type object and is not an
    array: [shallowCopy(null)] reaches [Object.keys(null)] and throws a
    [TypeError]; it returns neither [null] nor an object. *)
Theorem shallowCopy_null_throws :
  forall next,
    typeof VNull = "object"
    /\ isArray VNull = false
    /\ shallowCopy VNull next = (Throw TypeError, S next).
Proof. intros next. repeat split. Qed.

(** ** [JSON.parse] reads what [JSON.stringify] writes *)

(** What may follow a value in a JSON text that [print] writes: nothing, a
    comma, or a closing bracket. *)
Definition endsValue (rest : string) : bool :=
  match rest with
  | EmptyString => true
  | String c _ => codeIs 44 c || codeIs 93 c || codeIs 125 c
  end.

Lemma endsValue_not_digit rest :
  endsValue rest = true ->
  match rest with String c _ => isDigit c = false | EmptyString => True end.
Proof.
  destruct rest as [|c r]; [trivial|]. simpl. revert c. by_cases_on_char.
Qed.

Lemma endsValue_not_fraction rest :
  endsValue rest = true -> JSON.startsFraction rest = false.
Proof.
  destruct rest as [|c r]; [reflexivity|]. simpl. revert c. by_cases_on_char.
Qed.

(** *** Numbers *)

Lemma readDigits_print (d : Decimal.uint) (rest : string) :
  match rest with String c _ => isDigit c = false | EmptyString => True end ->
  JSON.readDigits (NilEmpty.string_of_uint d ++ rest) = (d, rest).
Proof.
  intros Hr. induction d as [|d IH|d IH|d IH|d IH|d IH|d IH|d IH|d IH|d IH|d IH];
    simpl; try (rewrite IH; reflexivity).
  destruct rest as [|c r]; [reflexivity|]. simpl. now rewrite Hr.
Qed.

Lemma nzhead_head (d : Decimal.uint) :
  match Decimal.nzhead d with Decimal.D0 _ => False | _ => True end.
Proof. induction d; simpl; trivial. Qed.

Lemma canonicalDigits_unorm (d : Decimal.uint) :
  canonicalDigits (Decimal.unorm d) = true.
Proof.
  unfold Decimal.unorm. pose proof (nzhead_head d) as H.
  destruct (Decimal.nzhead d); simpl; try reflexivity. contradiction.
Qed.

Lemma to_uint_unorm (n : N) : Decimal.unorm (N.to_uint n) = N.to_uint n.
Proof.
  rewrite <- DecimalN.Unsigned.to_of. now rewrite DecimalN.Unsigned.of_to.
Qed.

Lemma canonicalDigits_to_uint (n : N) : canonicalDigits (N.to_uint n) = true.
Proof. rewrite <- to_uint_unorm. apply canonicalDigits_unorm. Qed.

Lemma printNat_head (n : N) :
  exists c r, JSON.printNat n = String c r /\ isDigit c = true.
Proof.
  unfold JSON.printNat. pose proof (canonicalDigits_to_uint n) as H.
  destruct (N.to_uint n); simpl; try discriminate;
    eexists; eexists; split; reflexivity.
Qed.

Lemma digit_not_minus c : isDigit c = true -> codeIs 45 c = false.
Proof. revert c. by_cases_on_char. Qed.

Lemma readNumber_printNat (n : N) (rest : string) :
  endsValue rest = true ->
  isSafeInteger (Z.of_N n) = true ->
  JSON.readNumber (JSON.printNat n ++ rest) = JSON.Read (Z.of_N n) rest.
Proof.
  intros Hr Hs. unfold JSON.readNumber.
  destruct (printNat_head n) as [c [r [E Hc]]].
  pose proof (digit_not_minus _ Hc) as Hm.
  rewrite E. cbn [append]. rewrite Hm.
  change (String c (r ++ rest)) with (String c r ++ rest). rewrite <- E.
  unfold JSON.printNat.
  rewrite (readDigits_print _ _ (endsValue_not_digit _ Hr)).
  rewrite canonicalDigits_to_uint, (endsValue_not_fraction _ Hr).
  rewrite DecimalN.Unsigned.of_to. cbn [andb]. rewrite Hs.
  pose proof (canonicalDigits_to_uint n) as Hc'.
  destruct (N.to_uint n); try reflexivity. discriminate Hc'.
Qed.

Lemma isSafeInteger_opp p : isSafeInteger (Z.neg p) = isSafeInteger (Z.pos p).
Proof. unfold isSafeInteger. cbn [Z.abs]. reflexivity. Qed.

Lemma printNumber_zero : JSON.printNumber 0 = JSON.printNat 0.
Proof. reflexivity. Qed.

Lemma readNumber_print (z : Z) (rest : string) :
  endsValue rest = true ->
  isSafeInteger z = true ->
  JSON.readNumber (JSON.printNumber z ++ rest) = JSON.Read z rest.
Proof.
  intros Hr Hs. destruct z as [|p|p].
  - rewrite printNumber_zero. apply (readNumber_printNat 0 rest Hr).
    exact Hs.
  - apply (readNumber_printNat (Npos p) rest Hr). exact Hs.
  - rewrite isSafeInteger_opp in Hs.
    unfold JSON.printNumber, JSON.readNumber.
    cbn [append]. change (codeIs 45 "-") with true. cbv iota.
    unfold JSON.printNat.
    rewrite (readDigits_print _ _ (endsValue_not_digit _ Hr)).
    rewrite canonicalDigits_to_uint, (endsValue_not_fraction _ Hr).
    rewrite DecimalN.Unsigned.of_to.
    change (Z.of_N (N.pos p)) with (Z.pos p).
    rewrite Hs. cbn [andb Z.eqb Z.opp].
    pose proof (canonicalDigits_to_uint (Npos p)) as Hc'.
    destruct (N.to_uint (N.pos p)); try reflexivity. discriminate Hc'.
Qed.

Lemma printNumber_head (z : Z) :
  exists c r,
    JSON.printNumber z = String c r /\ (isDigit c || codeIs 45 c) = true.
Proof.
  destruct z as [|p|p].
  - now exists "0"%char, "".
  - destruct (printNat_head (Npos p)) as [c [r [E Hc]]].
    exists c, r. split; [exact E|]. now rewrite Hc.
  - eexists; eexists; split; reflexivity.
Qed.

(** *** Strings *)

Lemma readChars_quoteChar (c : ascii) (rest : string) :
  JSON.readChars (JSON.quoteChar c ++ rest)
  = JSON.consRead c (JSON.readChars rest).
Proof.
  destruct c as [[] [] [] [] [] [] [] []]; reflexivity.
Qed.

Lemma readChars_quote (s rest : string) :
  JSON.readChars (flatMap JSON.quoteChar s ++ String JSON.dquote rest)
  = JSON.Read s rest.
Proof.
  induction s as [|c s IH]; [reflexivity|].
  cbn [flatMap]. rewrite append_assoc, readChars_quoteChar, IH. reflexivity.
Qed.

(** *** Values *)

(** The size of a JSON text in values and members: the fuel that reading it
    takes. *)
Fixpoint jsize (j : JSON.json) : nat :=
  match j with
  | JSON.JArray l => S (list_sum (map jsize l))
  | JSON.JObject ms => S (list_sum (map (fun m => S (jsize (snd m))) ms))
  | _ => 1
  end.

(** The JSON texts of JavaScript values: the numbers are safe integers and
    the members of every object are in the order of [Object.keys]. *)
Fixpoint goodJson (j : JSON.json) : bool :=
  match j with
  | JSON.JNumber z => isSafeInteger z
  | JSON.JArray l => forallb goodJson l
  | JSON.JObject ms =>
      keysOrdered (keys ms) && forallb (fun m => goodJson (snd m)) ms
  | _ => true
  end.

Lemma json_induction (P : JSON.json -> Prop) :
  P JSON.JNull ->
  (forall b, P (JSON.JBool b)) ->
  (forall z, P (JSON.JNumber z)) ->
  (forall s, P (JSON.JString s)) ->
  (forall l, Forall P l -> P (JSON.JArray l)) ->
  (forall ms, Forall (fun m => P (snd m)) ms -> P (JSON.JObject ms)) ->
  forall j, P j.
Proof.
  intros Hn Hb Hz Hs Ha Ho. fix IH 1. intros [ |b|z|s|l|ms].
  - exact Hn.
  - apply Hb.
  - apply Hz.
  - apply Hs.
  - apply Ha. induction l as [|x l IHl]; constructor; [apply IH | exact IHl].
  - apply Ho. induction ms as [|m ms IHm]; constructor;
      [apply IH | exact IHm].
Qed.

(** The first code unit of a value that [print] writes. *)
Definition isValueStart (c : ascii) : bool :=
  isDigit c || codeIs 45 c || codeIs 34 c || codeIs 91 c || codeIs 123 c
  || codeIs 116 c || codeIs 102 c || codeIs 110 c.

Lemma print_head (j : JSON.json) :
  exists c r, JSON.print j = String c r /\ isValueStart c = true.
Proof.
  destruct j as [ |[|]|z|s|l|ms]; try (eexists; eexists; split; reflexivity).
  destruct (printNumber_head z) as [c [r [E H]]]. exists c, r.
  split; [exact E|]. unfold isValueStart.
  apply orb_true_iff in H as [H | H]; rewrite H; auto with bool.
  now rewrite orb_true_r.
Qed.

Fixpoint tailElements (l : list JSON.json) : string :=
  match l with
  | [] => ""
  | x :: r => "," ++ JSON.print x ++ tailElements r
  end.

Definition printMember (m : string * JSON.json) : string :=
  JSON.quote (fst m) ++ ":" ++ JSON.print (snd m).

Fixpoint tailMembers (ms : list (string * JSON.json)) : string :=
  match ms with
  | [] => ""
  | m :: r => "," ++ printMember m ++ tailMembers r
  end.

Lemma join_elements (x : JSON.json) (xs : list JSON.json) :
  JSON.join "," (map JSON.print (x :: xs)) = JSON.print x ++ tailElements xs.
Proof.
  revert x. induction xs as [|y ys IH]; intros x.
  - simpl. now rewrite append_empty_r.
  - change (JSON.join "," (map JSON.print (x :: y :: ys)))
      with (JSON.print x ++ "," ++ JSON.join "," (map JSON.print (y :: ys))).
    now rewrite IH.
Qed.

Lemma join_members (m : string * JSON.json) ms :
  JSON.join "," (map printMember (m :: ms)) = printMember m ++ tailMembers ms.
Proof.
  revert m. induction ms as [|y ys IH]; intros m.
  - simpl. now rewrite append_empty_r.
  - change (JSON.join "," (map printMember (m :: y :: ys)))
      with (printMember m ++ "," ++ JSON.join "," (map printMember (y :: ys))).
    now rewrite IH.
Qed.

Lemma print_array (x : JSON.json) (xs : list JSON.json) (rest : string) :
  JSON.print (JSON.JArray (x :: xs)) ++ rest
  = String "[" (JSON.print x ++ tailElements xs ++ String "]" rest).
Proof.
  change (JSON.print (JSON.JArray (x :: xs)))
    with ("[" ++ JSON.join "," (map JSON.print (x :: xs)) ++ "]").
  rewrite join_elements. cbn [append]. now rewrite !append_assoc.
Qed.

Lemma print_object (m : string * JSON.json) ms (rest : string) :
  JSON.print (JSON.JObject (m :: ms)) ++ rest
  = String "{" (printMember m ++ tailMembers ms ++ String "}" rest).
Proof.
  change (JSON.print (JSON.JObject (m :: ms)))
    with ("{" ++ JSON.join "," (map printMember (m :: ms)) ++ "}").
  rewrite join_members. cbn [append]. now rewrite !append_assoc.
Qed.

Lemma printMember_text (m : string * JSON.json) (rest : string) :
  printMember m ++ rest
  = String JSON.dquote
      (flatMap JSON.quoteChar (fst m)
       ++ String JSON.dquote (String ":" (JSON.print (snd m) ++ rest))).
Proof.
  unfold printMember, JSON.quote. cbn [append].
  now rewrite !append_assoc.
Qed.

(** How the reader goes on from the first code unit of what it reads. *)

Lemma readValue_number (fuel : nat) (c : ascii) (s : string) :
  (isDigit c || codeIs 45 c) = true ->
  JSON.readValue (S fuel) (String c s)
  = match JSON.readNumber (String c s) with
    | JSON.Read z rest => JSON.Read (JSON.JNumber z) rest
    | JSON.Malformed => JSON.Malformed
    | JSON.Beyond => JSON.Beyond
    end.
Proof.
  intros H. destruct c as [[] [] [] [] [] [] [] []]; vm_compute in H;
    try discriminate H; reflexivity.
Qed.

Lemma readValue_array (fuel : nat) (c : ascii) (r : string) :
  isValueStart c = true ->
  JSON.readValue (S fuel) (String "[" (String c r))
  = match JSON.readValue fuel (String c r) with
    | JSON.Read j rest =>
        match JSON.readElements fuel rest with
        | JSON.Read js rest' => JSON.Read (JSON.JArray (j :: js)) rest'
        | JSON.Malformed => JSON.Malformed
        | JSON.Beyond => JSON.Beyond
        end
    | JSON.Malformed => JSON.Malformed
    | JSON.Beyond => JSON.Beyond
    end.
Proof.
  intros H. destruct c as [[] [] [] [] [] [] [] []]; vm_compute in H;
    try discriminate H; reflexivity.
Qed.

Lemma readValue_object (fuel : nat) (r : string) :
  JSON.readValue (S fuel) (String "{" (String JSON.dquote r))
  = match JSON.readMember fuel (String JSON.dquote r) with
    | JSON.Read m rest =>
        match JSON.readMembers fuel rest with
        | JSON.Read ms rest' => JSON.Read (JSON.JObject (m :: ms)) rest'
        | JSON.Malformed => JSON.Malformed
        | JSON.Beyond => JSON.Beyond
        end
    | JSON.Malformed => JSON.Malformed
    | JSON.Beyond => JSON.Beyond
    end.
Proof. reflexivity. Qed.

Lemma readValue_string (fuel : nat) (r : string) :
  JSON.readValue (S fuel) (String JSON.dquote r)
  = match JSON.readChars r with
    | JSON.Read str rest => JSON.Read (JSON.JString str) rest
    | JSON.Malformed => JSON.Malformed
    | JSON.Beyond => JSON.Beyond
    end.
Proof. reflexivity. Qed.

Lemma readElements_comma (fuel : nat) (r : string) :
  JSON.readElements (S fuel) (String "," r)
  = match JSON.readValue fuel r with
    | JSON.Read j rest =>
        match JSON.readElements fuel rest with
        | JSON.Read js rest' => JSON.Read (j :: js) rest'
        | JSON.Malformed => JSON.Malformed
        | JSON.Beyond => JSON.Beyond
        end
    | JSON.Malformed => JSON.Malformed
    | JSON.Beyond => JSON.Beyond
    end.
Proof. reflexivity. Qed.

Lemma readMembers_comma (fuel : nat) (r : string) :
  JSON.readMembers (S fuel) (String "," r)
  = match JSON.readMember fuel r with
    | JSON.Read m rest =>
        match JSON.readMembers fuel rest with
        | JSON.Read ms rest' => JSON.Read (m :: ms) rest'
        | JSON.Malformed => JSON.Malformed
        | JSON.Beyond => JSON.Beyond
        end
    | JSON.Malformed => JSON.Malformed
    | JSON.Beyond => JSON.Beyond
    end.
Proof. reflexivity. Qed.

Lemma readMember_quoted (fuel : nat) (k rest : string) :
  JSON.readMember (S fuel)
    (String JSON.dquote
       (flatMap JSON.quoteChar k ++ String JSON.dquote (String ":" rest)))
  = match JSON.readValue fuel rest with
    | JSON.Read j rest2 => JSON.Read (k, j) rest2
    | JSON.Malformed => JSON.Malformed
    | JSON.Beyond => JSON.Beyond
    end.
Proof.
  change (JSON.readMember (S fuel)
            (String JSON.dquote
               (flatMap JSON.quoteChar k
                ++ String JSON.dquote (String ":" rest))))
    with (match JSON.readChars
                  (flatMap JSON.quoteChar k
                   ++ String JSON.dquote (String ":" rest)) with
          | JSON.Read k' rest0 =>
              match JSON.skipSpace rest0 with
              | String d rest1 =>
                  if codeIs 58 d then
                    match JSON.readValue fuel rest1 with
                    | JSON.Read j rest2 => JSON.Read (k', j) rest2
                    | JSON.Malformed => JSON.Malformed
                    | JSON.Beyond => JSON.Beyond
                    end
                  else JSON.Malformed
              | EmptyString => JSON.Malformed
              end
          | JSON.Malformed => JSON.Malformed
          | JSON.Beyond => JSON.Beyond
          end).
  rewrite readChars_quote. reflexivity.
Qed.

Lemma endsValue_tailElements xs rest :
  endsValue (tailElements xs ++ String "]" rest) = true.
Proof. now destruct xs. Qed.

Lemma endsValue_tailMembers ms rest :
  endsValue (tailMembers ms ++ String "}" rest) = true.
Proof. now destruct ms. Qed.

(** The elements behind the first one, and the closing bracket. *)
Lemma readElements_print (xs : list JSON.json) :
  Forall (fun j => forall fuel rest,
            jsize j <= fuel -> endsValue rest = true ->
            JSON.readValue fuel (JSON.print j ++ rest) = JSON.Read j rest) xs ->
  forall fuel rest,
    S (list_sum (map jsize xs)) <= fuel ->
    JSON.readElements fuel (tailElements xs ++ String "]" rest)
    = JSON.Read xs rest.
Proof.
  induction 1 as [|x xs Hx _ IH]; intros fuel rest Hf; simpl in Hf.
  - destruct fuel as [|fuel]; [lia|]. reflexivity.
  - destruct fuel as [|fuel]; [lia|].
    cbn [tailElements].
    change (("," ++ JSON.print x ++ tailElements xs) ++ String "]" rest)
      with (String "," ((JSON.print x ++ tailElements xs) ++ String "]" rest)).
    rewrite append_assoc, readElements_comma.
    assert (1 <= jsize x) by (destruct x; simpl; lia).
    rewrite Hx by (try apply endsValue_tailElements; lia).
    rewrite IH by lia. reflexivity.
Qed.

(** The members behind the first one, and the closing bracket. *)
Lemma readMember_print (m : string * JSON.json) :
  (forall fuel rest,
      jsize (snd m) <= fuel -> endsValue rest = true ->
      JSON.readValue fuel (JSON.print (snd m) ++ rest)
      = JSON.Read (snd m) rest) ->
  forall fuel rest,
    S (jsize (snd m)) <= fuel -> endsValue rest = true ->
    JSON.readMember fuel (printMember m ++ rest) = JSON.Read m rest.
Proof.
  intros Hm fuel rest Hf Hr. destruct fuel as [|fuel]; [lia|].
  rewrite printMember_text, readMember_quoted, Hm by (trivial; lia).
  now destruct m.
Qed.

Lemma readMembers_print (ms : list (string * JSON.json)) :
  Forall (fun m => forall fuel rest,
            jsize (snd m) <= fuel -> endsValue rest = true ->
            JSON.readValue fuel (JSON.print (snd m) ++ rest)
            = JSON.Read (snd m) rest) ms ->
  forall fuel rest,
    S (list_sum (map (fun m => S (jsize (snd m))) ms)) <= fuel ->
    JSON.readMembers fuel (tailMembers ms ++ String "}" rest)
    = JSON.Read ms rest.
Proof.
  induction 1 as [|m ms Hm _ IH]; intros fuel rest Hf; simpl in Hf.
  - destruct fuel as [|fuel]; [lia|]. reflexivity.
  - destruct fuel as [|fuel]; [lia|].
    cbn [tailMembers].
    change (("," ++ printMember m ++ tailMembers ms) ++ String "}" rest)
      with (String "," ((printMember m ++ tailMembers ms) ++ String "}" rest)).
    rewrite append_assoc, readMembers_comma.
    rewrite (readMember_print m Hm)
      by (try apply endsValue_tailMembers; lia).
    rewrite IH by lia. reflexivity.
Qed.

Lemma Forall_good {A : Type} (good : A -> bool) (P : A -> Prop) (l : list A) :
  Forall (fun x => good x = true -> P x) l ->
  forallb good l = true -> Forall P l.
Proof.
  induction 1 as [|x l Hx _ IH]; simpl; intros H; constructor;
    apply andb_true_iff in H as [H1 H2]; auto.
Qed.

(** Reading what [print] wrote gives the JSON text back, with any fuel that
    is at least the size of the text. *)
Lemma readValue_print (j : JSON.json) :
  goodJson j = true ->
  forall fuel rest,
    jsize j <= fuel -> endsValue rest = true ->
    JSON.readValue fuel (JSON.print j ++ rest) = JSON.Read j rest.
Proof.
  induction j as [ |b|z|s|l IH|ms IH] using json_induction;
    intros Hg fuel rest Hf Hr;
    (destruct fuel as [|fuel]; [simpl in Hf; lia|]).
  - change (JSON.readValue (S fuel) (JSON.print JSON.JNull ++ rest))
      with (JSON.readLiteral "null" JSON.JNull ("null" ++ rest)).
    unfold JSON.readLiteral. now rewrite startsWith_append.
  - destruct b.
    + change (JSON.readValue (S fuel) (JSON.print (JSON.JBool true) ++ rest))
        with (JSON.readLiteral "true" (JSON.JBool true) ("true" ++ rest)).
      unfold JSON.readLiteral. now rewrite startsWith_append.
    + change (JSON.readValue (S fuel) (JSON.print (JSON.JBool false) ++ rest))
        with (JSON.readLiteral "false" (JSON.JBool false) ("false" ++ rest)).
      unfold JSON.readLiteral. now rewrite startsWith_append.
  - cbn [JSON.print goodJson] in *.
    destruct (printNumber_head z) as [c [r [E Hc]]].
    pose proof (readNumber_print z rest Hr Hg) as R.
    rewrite E in *. cbn [append] in *.
    now rewrite (readValue_number _ _ _ Hc), R.
  - cbn [JSON.print]. unfold JSON.quote. cbn [append].
    rewrite append_assoc. cbn [append].
    now rewrite readValue_string, readChars_quote.
  - cbn [goodJson] in Hg. pose proof (Forall_good _ _ _ IH Hg) as IH'.
    destruct l as [|x xs]; [reflexivity|].
    rewrite print_array.
    destruct (print_head x) as [c [r [E Hc]]]. rewrite E. cbn [append].
    rewrite (readValue_array _ _ _ Hc).
    change (String c (r ++ tailElements xs ++ String "]" rest))
      with (String c r ++ tailElements xs ++ String "]" rest).
    rewrite <- E. simpl in Hf.
    assert (1 <= jsize x) by (destruct x; simpl; lia).
    inversion IH' as [|? ? Hx Hxs]; subst.
    rewrite Hx by (try apply endsValue_tailElements; lia).
    rewrite (readElements_print xs Hxs) by lia. reflexivity.
  - cbn [goodJson] in Hg. apply andb_true_iff in Hg as [_ Hg].
    pose proof (Forall_good (fun m => goodJson (snd m)) _ _ IH Hg) as IH'.
    destruct ms as [|m ms]; [reflexivity|].
    rewrite print_object, printMember_text, readValue_object.
    rewrite <- printMember_text. simpl in Hf.
    inversion IH' as [|? ? Hm Hms]; subst.
    rewrite (readMember_print m Hm)
      by (try apply endsValue_tailMembers; lia).
    rewrite (readMembers_print ms Hms) by lia. reflexivity.
Qed.

(** A JSON text has at least as many code units as it has values and
    members, so that [readText] has the fuel it takes. *)
Lemma length_tailElements (xs : list JSON.json) :
  Forall (fun j => jsize j <= String.length (JSON.print j)) xs ->
  list_sum (map jsize xs) <= String.length (tailElements xs).
Proof.
  induction 1 as [|x xs Hx _ IH]; simpl; [lia|].
  rewrite length_append. lia.
Qed.

Lemma length_printMember (m : string * JSON.json) :
  jsize (snd m) <= String.length (JSON.print (snd m)) ->
  S (jsize (snd m)) <= String.length (printMember m).
Proof.
  intros H. unfold printMember. rewrite !length_append.
  change (String.length ":") with 1. lia.
Qed.

Lemma length_tailMembers (ms : list (string * JSON.json)) :
  Forall (fun m => jsize (snd m) <= String.length (JSON.print (snd m))) ms ->
  list_sum (map (fun m => S (jsize (snd m))) ms)
  <= String.length (tailMembers ms).
Proof.
  induction 1 as [|m ms Hm _ IH]; [simpl; lia|].
  change (tailMembers (m :: ms))
    with (String "," (printMember m ++ tailMembers ms)).
  change (list_sum (map (fun m => S (jsize (snd m))) (m :: ms)))
    with (S (jsize (snd m))
          + list_sum (map (fun m => S (jsize (snd m))) ms)).
  cbn [String.length]. rewrite length_append.
  pose proof (length_printMember m Hm). lia.
Qed.

Lemma jsize_length (j : JSON.json) : jsize j <= String.length (JSON.print j).
Proof.
  induction j as [ |b|z|s|l IH|ms IH] using json_induction.
  - simpl. lia.
  - destruct b; simpl; lia.
  - destruct (printNumber_head z) as [c [r [E _]]].
    cbn [JSON.print jsize]. rewrite E. simpl. lia.
  - simpl. lia.
  - destruct l as [|x xs]; [simpl; lia|].
    rewrite <- (append_empty_r (JSON.print _)), print_array.
    inversion IH as [|? ? Hx Hxs]; subst.
    pose proof (length_tailElements xs Hxs).
    simpl. rewrite !length_append. simpl in *. lia.
  - destruct ms as [|m ms]; [simpl; lia|].
    rewrite <- (append_empty_r (JSON.print _)), print_object.
    inversion IH as [|? ? Hm Hms]; subst.
    pose proof (length_tailMembers ms Hms).
    pose proof (length_printMember m Hm).
    change (jsize (JSON.JObject (m :: ms)))
      with (S (S (jsize (snd m))
               + list_sum (map (fun m => S (jsize (snd m))) ms))).
    cbn [String.length]. rewrite !length_append. cbn [String.length]. lia.
Qed.

Lemma readText_print (j : JSON.json) :
  goodJson j = true -> JSON.readText (JSON.print j) = JSON.Read j "".
Proof.
  intros Hg. unfold JSON.readText.
  rewrite <- (append_empty_r (JSON.print j)) at 2.
  rewrite (readValue_print j Hg); [reflexivity| |reflexivity].
  pose proof (jsize_length j). lia.
Qed.

(** *** The value that is built from a JSON text *)

Definition jsonOf (e : value) : JSON.json :=
  match JSON.toJson e with
  | Some j => j
  | None => JSON.JNull
  end.

Definition memberOf (p : string * value) : list (string * JSON.json) :=
  match JSON.toJson (snd p) with
  | Some j => [(fst p, j)]
  | None => []
  end.

Lemma buildElements_toJson (l : list JSON.json) :
  Forall (fun j => forall n, JSON.toJson (fst (JSON.build j n)) = Some j) l ->
  forall n, map jsonOf (fst (JSON.buildElements JSON.build l n)) = l.
Proof.
  induction 1 as [|j l Hj _ IH]; intros n; [reflexivity|].
  cbn [JSON.buildElements]. specialize (Hj n).
  destruct (JSON.build j n) as [v n1]. specialize (IH n1).
  destruct (JSON.buildElements JSON.build l n1) as [vs n2].
  cbn [fst map] in *. unfold jsonOf at 1. now rewrite Hj, IH.
Qed.

Lemma flat_map_last {A B : Type} (f : A -> list B) (l : list A) (x : A) :
  flat_map f (l ++ [x])%list = (flat_map f l ++ f x)%list.
Proof. rewrite flat_map_app. simpl. now rewrite app_nil_r. Qed.

Lemma buildMembers_toJson (ms : list (string * JSON.json)) :
  Forall (fun m => forall n,
            JSON.toJson (fst (JSON.build (snd m) n)) = Some (snd m)) ms ->
  forall acc n,
    keysOrdered (keys acc ++ keys ms)%list = true ->
    flat_map memberOf (fst (JSON.buildMembers JSON.build ms acc n))
    = (flat_map memberOf acc ++ ms)%list.
Proof.
  induction 1 as [|[k j] ms Hm _ IH]; intros acc n Hk.
  - simpl. now rewrite app_nil_r.
  - cbn [JSON.buildMembers snd fst]. specialize (Hm n). cbn [snd] in Hm.
    destruct (JSON.build j n) as [v n1]. cbn [fst] in Hm.
    cbn [keys map fst] in Hk.
    rewrite setProp_last by (eapply keysOrdered_middle; exact Hk).
    rewrite IH.
    + rewrite flat_map_last. unfold memberOf at 2. cbn [snd fst].
      rewrite Hm. now rewrite <- app_assoc.
    + rewrite keys_app. cbn [keys map fst]. now rewrite <- app_assoc.
Qed.

(** The value built from a JSON text of a JavaScript value is written as
    that text again. *)
Lemma toJson_build (j : JSON.json) :
  goodJson j = true ->
  forall n, JSON.toJson (fst (JSON.build j n)) = Some j.
Proof.
  induction j as [ |b|z|s|l IH|ms IH] using json_induction;
    intros Hg n; try reflexivity.
  - cbn [goodJson] in Hg.
    pose proof (Forall_good goodJson
                  (fun j => forall n,
                     JSON.toJson (fst (JSON.build j n)) = Some j) _ IH Hg)
      as IH'.
    pose proof (buildElements_toJson l IH' (S n)) as E.
    cbn [JSON.build].
    destruct (JSON.buildElements JSON.build l (S n)) as [vs n'].
    cbn [fst JSON.toJson] in *. fold jsonOf. now rewrite E.
  - cbn [goodJson] in Hg. apply andb_true_iff in Hg as [Hk Hg].
    pose proof (Forall_good (fun m => goodJson (snd m))
                  (fun m => forall n,
                     JSON.toJson (fst (JSON.build (snd m) n)) = Some (snd m))
                  _ IH Hg) as IH'.
    pose proof (buildMembers_toJson ms IH' [] (S n) Hk) as E.
    cbn [JSON.build].
    destruct (JSON.buildMembers JSON.build ms [] (S n)) as [ps n'].
    cbn [fst JSON.toJson] in *. fold memberOf. now rewrite E.
Qed.

(** *** The JSON text of a value *)

Lemma value_induction (P : value -> Prop) :
  P VUndefined -> P VNull ->
  (forall b, P (VBool b)) ->
  (forall z, P (VNumber z)) ->
  (forall s, P (VString s)) ->
  (forall id, P (VFunction id)) ->
  (forall id l, Forall P l -> P (VArray id l)) ->
  (forall id ps, Forall (fun p => P (snd p)) ps -> P (VObject id ps)) ->
  forall v, P v.
Proof.
  intros Hu Hn Hb Hz Hs Hf Ha Ho. fix IH 1. intros [ | |b|z|s|id|id l|id ps].
  - exact Hu.
  - exact Hn.
  - apply Hb.
  - apply Hz.
  - apply Hs.
  - apply Hf.
  - apply Ha. induction l as [|x l IHl]; constructor; [apply IH | exact IHl].
  - apply Ho. induction ps as [|p ps IHp]; constructor;
      [apply IH | exact IHp].
Qed.

Lemma keys_memberOf (ps : list (string * value)) (k : string) :
  In k (keys (flat_map memberOf ps)) -> In k (keys ps).
Proof.
  induction ps as [|p ps IH]; simpl; [trivial|].
  unfold keys in *. rewrite map_app, in_app_iff. intros [H | H].
  - left. unfold memberOf in H. destruct (JSON.toJson (snd p)); simpl in H.
    + destruct H as [H | []]. exact H.
    + destruct H.
  - right. now apply IH.
Qed.

(** Leaving out the properties that have no JSON form keeps the order of
    the others. *)
Lemma keysOrdered_memberOf (ps : list (string * value)) :
  keysOrdered (keys ps) = true ->
  keysOrdered (keys (flat_map memberOf ps)) = true.
Proof.
  induction ps as [|p ps IH]; [reflexivity|].
  change (keys (p :: ps)) with (fst p :: keys ps).
  change (flat_map memberOf (p :: ps))
    with (memberOf p ++ flat_map memberOf ps)%list.
  cbn [keysOrdered]. intros H.
  apply andb_true_iff in H as [Hp Hr]. specialize (IH Hr).
  unfold memberOf at 1. destruct (JSON.toJson (snd p)) as [j|];
    [|exact IH].
  change (keys ([(fst p, j)] ++ flat_map memberOf ps)%list)
    with (fst p :: keys (flat_map memberOf ps)).
  cbn [keysOrdered].
  rewrite IH, andb_true_r. apply forallb_forall. intros k Hk.
  rewrite forallb_forall in Hp. apply Hp. now apply keys_memberOf.
Qed.

(** The JSON text of a JavaScript value is such a text. *)
Lemma toJson_good (v : value) :
  wfValue v = true -> forall j, JSON.toJson v = Some j -> goodJson j = true.
Proof.
  induction v as [ | |b|z|s|id|id l IH|id ps IH] using value_induction;
    intros Hw j Hj; simpl in Hj; try discriminate;
    injection Hj as <-; try reflexivity.
  - exact Hw.
  - cbn [wfValue] in Hw. cbn [goodJson].
    induction IH as [|x l Hx _ IHl]; [reflexivity|].
    cbn [forallb map] in *. apply andb_true_iff in Hw as [Hw1 Hw2].
    rewrite (IHl Hw2), andb_true_r.
    destruct (JSON.toJson x) as [jx|] eqn:E; [|reflexivity].
    now apply Hx.
  - cbn [wfValue] in Hw. apply andb_true_iff in Hw as [Hk Hw].
    cbn [goodJson]. fold memberOf.
    rewrite (keysOrdered_memberOf _ Hk). cbn [andb].
    clear Hk. induction IH as [|p ps Hp _ IHp]; [reflexivity|].
    cbn [forallb flat_map] in *. apply andb_true_iff in Hw as [Hw1 Hw2].
    rewrite forallb_app, (IHp Hw2), andb_true_r.
    unfold memberOf. destruct (JSON.toJson (snd p)) as [jp|] eqn:E;
      [|reflexivity].
    cbn [forallb snd]. rewrite andb_true_r. now apply Hp.
Qed.

Lemma toJson_object (v : value) :
  typeof v = "object" -> exists j, JSON.toJson v = Some j.
Proof.
  destruct v; simpl; intros H; try discriminate; eexists; reflexivity.
Qed.


(** ** [deepCopy] and [deepEquals] *)

Lemma deepCopy_object (obj : value) (next : nat) :
  typeof obj = "object" -> wfValue obj = true ->
  exists j,
    JSON.toJson obj = Some j
    /\ goodJson j = true
    /\ deepCopy obj next
       = (Return (fst (JSON.build j next)), snd (JSON.build j next)).
Proof.
  intros Ht Hw. destruct (toJson_object obj Ht) as [j Hj].
  pose proof (toJson_good obj Hw j Hj) as Hg.
  exists j. split; [exact Hj|]. split; [exact Hg|].
  unfold deepCopy, JSON.stringify, JSON.parse. rewrite Ht, Hj.
  cbn [String.eqb Ascii.eqb Bool.eqb option_map].
  rewrite (readText_print j Hg). now destruct (JSON.build j next).
Qed.


(** An object with an array index, a nested array and a nested object. *)
Definition sampleObject : value :=
  VObject 0
    [("1", VNumber 5);
     ("b", VArray 1 [VNull; VString "a\b"; VBool true; VNumber (-12)]);
     ("d", VObject 2 [])].


(** * The other functions of [utils.js] *)

Module UtilsRest.

(** White space and line terminators, for [String.prototype.trim] and for
    the class of [TRIM_REGULAR_EXPRESSION], on code units below 256: tab,
    line feed, vertical tab, form feed, carriage return, space and no-break
    space. *)
Definition isWhiteSpace (c : ascii) : bool :=
  codeIn 9 13 c || codeIs 32 c || codeIs 160 c.

Fixpoint stripStart (s : string) : string :=
  match s with
  | EmptyString => EmptyString
  | String c r => if isWhiteSpace c then stripStart r else s
  end.

Fixpoint stripEnd (s : string) : string :=
  match s with
  | EmptyString => EmptyString
  | String c r =>
      match stripEnd r with
      | EmptyString =>
          if isWhiteSpace c then EmptyString else String c EmptyString
      | r' => String c r'
      end
  end.

(** [inputString.trim()] *)
Definition nativeTrim (s : string) : string := stripEnd (stripStart s).

(** [inputString.replace(TRIM_REGULAR_EXPRESSION, '')].  The expression has
    two alternatives and the global flag.  Behind the start of the string
    only the second alternative can match: white space up to the end of the
    string.  [replaceBehind] scans the positions from left to right and
    keeps the code unit at a position where there is no match. *)
Fixpoint replaceBehind (s : string) : string :=
  match s with
  | EmptyString => EmptyString
  | String c r =>
      if isWhiteSpace c && all isWhiteSpace r then EmptyString
      else String c (replaceBehind r)
  end.

(** At the start of the string the first alternative comes first: all the
    white space there is; the scan goes on behind the match. *)
Definition replaceTrim (s : string) : string :=
  match s with
  | EmptyString => EmptyString
  | String c _ =>
      if isWhiteSpace c then replaceBehind (stripStart s)
      else replaceBehind s
  end.

(** [trim(inputString)]; [hasTrim] tells whether the engine gives strings a
    [trim] method. *)
Definition trim (hasTrim : bool) (inputString : string) : string :=
  if hasTrim then nativeTrim inputString else replaceTrim inputString.

(** What [nextTick(fn)] does: it gives [fn] to [process.nextTick], or it
    calls [exports.setTimeout(fn, 0)], here the machine that runs that
    call. *)
Inductive scheduling : Type :=
| ProcessNextTick (fn : value)
| WrapperCall (m : machine).

(** [nextTick(fn)]; [isNode] is the constant of line 14. *)
Definition nextTick (isNode : bool) (fn : value) : scheduling :=
  if isNode then ProcessNextTick fn
  else WrapperCall (enter ExportsSetTimeout fn (VNumber 0)).

End UtilsRest.

(** * Further properties *)

(** ** [deepEquals] *)

Lemma strictEquals_sym (a b : value) : strictEquals a b = strictEquals b a.
Proof.
  destruct a, b; simpl; try reflexivity.
  - now destruct b, b0.
  - apply Z.eqb_sym.
  - apply String.eqb_sym.
  - apply Nat.eqb_sym.
  - apply Nat.eqb_sym.
  - apply Nat.eqb_sym.
Qed.

(** X1. [deepEquals] does not depend on the order of its arguments. *)
Theorem deepEquals_symmetric :
  forall a b, deepEquals a b = deepEquals b a.
Proof.
  intros a b. unfold deepEquals. rewrite (strictEquals_sym b a).
  destruct (strictEquals a b); [reflexivity|].
  rewrite (orb_comm (negb (String.eqb (typeof b) "object"))).
  destruct (negb _ || negb _); [reflexivity|].
  destruct (JSON.stringify a), (JSON.stringify b); try reflexivity.
  apply String.eqb_sym.
Qed.

(** X2. When one of the two values is not of type object, [deepEquals] is
    [===]: there is no conversion, and a number never equals a string. *)
Theorem deepEquals_of_primitives :
  forall a b,
    typeof a <> "object" \/ typeof b <> "object" ->
    deepEquals a b = strictEquals a b.
Proof.
  intros a b H. unfold deepEquals.
  destruct (strictEquals a b); [reflexivity|].
  destruct (String.eqb_spec (typeof a) "object") as [Ea|_];
    destruct (String.eqb_spec (typeof b) "object") as [Eb|_];
    try reflexivity.
  destruct H as [H | H]; contradiction.
Qed.

Lemma deepEquals_of_primitives_witness :
  deepEquals (VNumber 1) (VString "1") = false
  /\ deepEquals VNull VUndefined = false
  /\ deepEquals (VString "a") (VString "a") = true.
Proof.
  rewrite !deepEquals_of_primitives; [repeat split| | |];
    (left; discriminate) || (right; discriminate).
Defined.

(** Two JSON texts of JavaScript values that are written the same are the
    same. *)
Lemma print_injective (j1 j2 : JSON.json) :
  goodJson j1 = true -> goodJson j2 = true ->
  JSON.print j1 = JSON.print j2 -> j1 = j2.
Proof.
  intros H1 H2 E. pose proof (readText_print j1 H1) as R1.
  rewrite E, (readText_print j2 H2) in R1. now injection R1.
Qed.

Lemma stringify_injective (a b : value) :
  wfValue a = true -> wfValue b = true ->
  JSON.stringify a = JSON.stringify b -> JSON.toJson a = JSON.toJson b.
Proof.
  intros Ha Hb. unfold JSON.stringify.
  destruct (JSON.toJson a) as [ja|] eqn:Ea, (JSON.toJson b) as [jb|] eqn:Eb;
    simpl; intros E; try discriminate; [|reflexivity].
  injection E as E. f_equal.
  apply print_injective;
    [exact (toJson_good a Ha ja Ea) | exact (toJson_good b Hb jb Eb)
    | exact E].
Qed.

Lemma deepEquals_objects (a b : value) :
  typeof a = "object" -> typeof b = "object" ->
  deepEquals a b
  = strictEquals a b
    || match JSON.stringify a, JSON.stringify b with
       | Some x, Some y => String.eqb x y
       | None, None => true
       | _, _ => false
       end.
Proof.
  intros Ha Hb. unfold deepEquals. rewrite Ha, Hb.
  now destruct (strictEquals a b).
Qed.

(** X3. Two values of type object that are not the same object are
    [deepEquals] exactly when they have the same JSON form: the same
    members in the same order, with members that are [undefined] or
    functions left out. *)
Theorem deepEquals_is_equality_of_json :
  forall a b,
    typeof a = "object" -> typeof b = "object" ->
    wfValue a = true -> wfValue b = true ->
    withoutToJSON a = true -> withoutToJSON b = true ->
    (deepEquals a b = true
     <-> strictEquals a b = true \/ JSON.toJson a = JSON.toJson b).
Proof.
  intros a b Ta Tb Wa Wb _ _. rewrite (deepEquals_objects a b Ta Tb).
  rewrite orb_true_iff. split; intros [H | H]; auto; right.
  - apply stringify_injective; trivial.
    destruct (JSON.stringify a), (JSON.stringify b); try discriminate;
      [|reflexivity].
    apply String.eqb_eq in H. now subst.
  - unfold JSON.stringify. rewrite H.
    destruct (JSON.toJson b); simpl; [apply String.eqb_refl | reflexivity].
Qed.

Lemma deepEquals_is_equality_of_json_witness :
  deepEquals (VArray 0 [VNumber 1; VUndefined]) (VArray 1 [VNumber 1; VNull])
  = true
  <-> strictEquals (VArray 0 [VNumber 1; VUndefined])
        (VArray 1 [VNumber 1; VNull]) = true
      \/ JSON.toJson (VArray 0 [VNumber 1; VUndefined])
         = JSON.toJson (VArray 1 [VNumber 1; VNull]).
Proof.
  apply deepEquals_is_equality_of_json; vm_compute; reflexivity.
Defined.

Lemma memberOf_without (before after : list (string * value)) k v :
  JSON.toJson v = None ->
  flat_map memberOf (before ++ (k, v) :: after)%list
  = flat_map memberOf (before ++ after)%list.
Proof.
  intros H. rewrite !flat_map_app. cbn [flat_map].
  unfold memberOf at 2. cbn [snd]. now rewrite H.
Qed.

Lemma deepEquals_without (i j : nat) (before after : list (string * value)) k v :
  JSON.toJson v = None ->
  deepEquals (VObject i (before ++ (k, v) :: after)%list)
             (VObject j (before ++ after)%list) = true.
Proof.
  intros H. rewrite deepEquals_objects by reflexivity.
  unfold JSON.stringify. cbn [JSON.toJson]. fold memberOf.
  rewrite (memberOf_without _ _ _ _ H). cbn [option_map].
  rewrite String.eqb_refl. apply orb_true_r.
Qed.

(** X4. A property whose value is [undefined] or a function does not count:
    an object with such a property, wherever it stands, and the object
    without it are [deepEquals], unless the function is a [toJSON]. *)
Theorem deepEquals_ignores_undefined_properties :
  forall i j before after k f,
    withoutToJSON (VObject j (before ++ after)%list) = true ->
    k <> "toJSON" ->
    deepEquals (VObject i (before ++ (k, VUndefined) :: after)%list)
               (VObject j (before ++ after)%list) = true
    /\ deepEquals (VObject i (before ++ (k, VFunction f) :: after)%list)
                  (VObject j (before ++ after)%list) = true.
Proof. intros. split; now apply deepEquals_without. Qed.

Lemma deepEquals_ignores_undefined_properties_witness :
  deepEquals
    (VObject 0 [("a", VNumber 1); ("b", VUndefined); ("c", VNull)])
    (VObject 1 [("a", VNumber 1); ("c", VNull)]) = true
  /\ deepEquals
       (VObject 0 [("a", VNumber 1); ("b", VFunction 2); ("c", VNull)])
       (VObject 1 [("a", VNumber 1); ("c", VNull)]) = true.
Proof.
  apply (deepEquals_ignores_undefined_properties 0 1
           [("a", VNumber 1)] [("c", VNull)] "b" 2);
    [reflexivity | discriminate].
Defined.

(** X5. The order of the keys counts: two different objects with the same two
    properties in the two orders are not [deepEquals], when both values
    have a JSON form. *)
Theorem deepEquals_depends_on_key_order :
  forall i j k1 k2 v1 v2,
    i <> j ->
    mayPrecede k1 k2 = true -> mayPrecede k2 k1 = true ->
    wfValue v1 = true -> wfValue v2 = true ->
    withoutToJSON v1 = true -> withoutToJSON v2 = true ->
    JSON.toJson v1 <> None -> JSON.toJson v2 <> None ->
    deepEquals (VObject i [(k1, v1); (k2, v2)])
               (VObject j [(k2, v2); (k1, v1)]) = false.
Proof.
  intros i j k1 k2 v1 v2 Hij H12 H21 W1 W2 _ _ J1 J2.
  rewrite deepEquals_objects by reflexivity.
  cbn [strictEquals]. rewrite (proj2 (Nat.eqb_neq i j) Hij). cbn [orb].
  set (a := VObject i _). set (b := VObject j _).
  assert (Wa : wfValue a = true).
  { unfold a. cbn. now rewrite H12, W1, W2. }
  assert (Wb : wfValue b = true).
  { unfold b. cbn. now rewrite H21, W1, W2. }
  pose proof (stringify_injective a b Wa Wb) as Inj.
  destruct (JSON.stringify a) as [x|] eqn:Ea;
    destruct (JSON.stringify b) as [y|] eqn:Eb; try reflexivity;
    try discriminate.
  destruct (String.eqb_spec x y) as [E|]; [|reflexivity]. subst y.
  specialize (Inj eq_refl). unfold a, b in Inj. cbn in Inj.
  revert Inj J1 J2.
  destruct (JSON.toJson v1) as [j1|]; [|intros _ J1; now elim J1].
  destruct (JSON.toJson v2) as [j2|]; [|intros _ _ J2; now elim J2].
  cbn. intros Inj _ _. assert (E : k1 = k2) by congruence. subst k2.
  now rewrite mayPrecede_irrefl in H12.
Qed.

Lemma deepEquals_depends_on_key_order_witness :
  deepEquals (VObject 0 [("a", VNumber 1); ("b", VNumber 2)])
             (VObject 1 [("b", VNumber 2); ("a", VNumber 1)]) = false.
Proof.
  apply deepEquals_depends_on_key_order;
    try (vm_compute; reflexivity); discriminate.
Defined.

(** ** [shallowCopy] *)

Lemma strictEquals_refl (v : value) : strictEquals v v = true.
Proof.
  destruct v; simpl; try reflexivity.
  - now destruct b.
  - apply Z.eqb_refl.
  - apply String.eqb_refl.
  - apply Nat.eqb_refl.
  - apply Nat.eqb_refl.
  - apply Nat.eqb_refl.
Qed.

(** The own properties of [obj], if it is an object, are in the order of
    [Object.keys]. *)
Definition topLevelOrdered (obj : value) : bool :=
  match obj with
  | VObject _ own => keysOrdered (keys own)
  | _ => true
  end.

(** X6. The copy of an array or of an object is a new array or object, not the
    one that was given ([next], the first free identity, is above every
    identity in use), and it holds the same elements in the same order, or
    the same keys in the same order with the same value under each key. *)
Theorem shallowCopy_is_new_with_same_contents :
  forall id next,
    id < next ->
    (forall elems,
        shallowCopy (VArray id elems) next
        = (Return (VArray next elems), S next)
        /\ strictEquals (VArray next elems) (VArray id elems) = false)
    /\ (forall own,
          keysOrdered (keys own) = true ->
          shallowCopy (VObject id own) next
          = (Return (VObject next own), S next)
          /\ strictEquals (VObject next own) (VObject id own) = false).
Proof.
  intros id next Hlt.
  assert (E : Nat.eqb next id = false) by (apply Nat.eqb_neq; lia).
  split.
  - intros elems. split; [reflexivity | exact E].
  - intros own H.
    split; [exact (shallowCopy_contents (VObject id own) next H) | exact E].
Qed.

Lemma shallowCopy_is_new_with_same_contents_witness :
  shallowCopy sampleObject 3
  = (Return (VObject 3
               [("1", VNumber 5);
                ("b", VArray 1 [VNull; VString "a\b"; VBool true;
                                VNumber (-12)]);
                ("d", VObject 2 [])]), 4)
  /\ strictEquals
       (VObject 3
          [("1", VNumber 5);
           ("b", VArray 1 [VNull; VString "a\b"; VBool true; VNumber (-12)]);
           ("d", VObject 2 [])]) sampleObject = false.
Proof.
  apply (proj2 (shallowCopy_is_new_with_same_contents 0 3
                  (Nat.lt_0_succ 2))).
  reflexivity.
Defined.

(** X7. The copy that [shallowCopy] makes of an array or of an object is
    [deepEquals] to what was copied. *)
Theorem shallowCopy_is_deepEquals :
  forall obj next copy next',
    typeof obj = "object" ->
    topLevelOrdered obj = true ->
    withoutToJSON obj = true ->
    shallowCopy obj next = (Return copy, next') ->
    deepEquals copy obj = true.
Proof.
  intros obj next copy next' Ht Ho _ Hc.
  pose proof (shallowCopy_contents obj next) as C.
  destruct obj as [ | |b|z|s|f|id elems|id own]; try discriminate Ht.
  - discriminate Hc.
  - rewrite C in Hc. injection Hc as <- _.
    rewrite deepEquals_objects by reflexivity.
    unfold JSON.stringify. cbn [JSON.toJson option_map].
    rewrite String.eqb_refl. apply orb_true_r.
  - rewrite (C Ho) in Hc. injection Hc as <- _.
    rewrite deepEquals_objects by reflexivity.
    unfold JSON.stringify. cbn [JSON.toJson option_map].
    rewrite String.eqb_refl. apply orb_true_r.
Qed.

Lemma shallowCopy_is_deepEquals_witness :
  deepEquals
    (VObject 3
       [("1", VNumber 5);
        ("b", VArray 1 [VNull; VString "a\b"; VBool true; VNumber (-12)]);
        ("d", VObject 2 [])]) sampleObject = true.
Proof.
  apply (shallowCopy_is_deepEquals sampleObject 3 _ 4); reflexivity.
Defined.

(** ** [deepCopy]: what the copy is made of *)

(** The identities of the functions, arrays and objects in a value. *)
Fixpoint identities (v : value) : list nat :=
  match v with
  | VFunction id => [id]
  | VArray id l => id :: flat_map identities l
  | VObject id ps => id :: flat_map (fun p => identities (snd p)) ps
  | _ => []
  end.

(** A value without its identities. *)
Fixpoint contents (v : value) : value :=
  match v with
  | VFunction _ => VFunction 0
  | VArray _ l => VArray 0 (map contents l)
  | VObject _ ps => VObject 0 (map (fun p => (fst p, contents (snd p))) ps)
  | _ => v
  end.

(** The value of a JSON text, without identities. *)
Fixpoint valueOf (j : JSON.json) : value :=
  match j with
  | JSON.JNull => VNull
  | JSON.JBool b => VBool b
  | JSON.JNumber z => VNumber z
  | JSON.JString s => VString s
  | JSON.JArray l => VArray 0 (map valueOf l)
  | JSON.JObject ms => VObject 0 (map (fun m => (fst m, valueOf (snd m))) ms)
  end.

Definition within (lo hi : nat) (ids : list nat) : Prop :=
  Forall (fun i => lo <= i < hi) ids.

Lemma within_weaken lo hi lo' hi' ids :
  lo' <= lo -> hi <= hi' -> within lo hi ids -> within lo' hi' ids.
Proof.
  intros H1 H2. unfold within. apply Forall_impl. intros i Hi. lia.
Qed.

Definition identitiesOfProps (ps : list (string * value)) : list nat :=
  flat_map (fun p => identities (snd p)) ps.

Lemma within_replaceProp lo hi k v (ps : list (string * value)) :
  within lo hi (identities v) -> within lo hi (identitiesOfProps ps) ->
  within lo hi (identitiesOfProps (replaceProp k v ps)).
Proof.
  intros Hv. unfold within, identitiesOfProps.
  induction ps as [|[k' v'] ps IH]; simpl; [trivial|].
  rewrite Forall_app. intros [H1 H2].
  destruct (String.eqb k k'); simpl; rewrite Forall_app; auto.
Qed.

Lemma within_insertIndex lo hi n k v (ps : list (string * value)) :
  within lo hi (identities v) -> within lo hi (identitiesOfProps ps) ->
  within lo hi (identitiesOfProps (insertIndex n k v ps)).
Proof.
  intros Hv. unfold within, identitiesOfProps.
  induction ps as [|[k' v'] ps IH]; simpl.
  - intros _. now rewrite app_nil_r.
  - rewrite Forall_app. intros [H1 H2].
    destruct (arrayIndex k') as [m|]; [destruct (m <? n)%N|]; simpl;
      rewrite !Forall_app; auto.
Qed.

Lemma within_setProp lo hi k v (ps : list (string * value)) :
  within lo hi (identities v) -> within lo hi (identitiesOfProps ps) ->
  within lo hi (identitiesOfProps (setProp k v ps)).
Proof.
  intros Hv Hps. unfold setProp. destruct (hasKey k ps).
  - now apply within_replaceProp.
  - destruct (arrayIndex k).
    + now apply within_insertIndex.
    + unfold within, identitiesOfProps in *. rewrite flat_map_app, Forall_app.
      split; [exact Hps|]. simpl. now rewrite app_nil_r.
Qed.

Definition buildsNew (j : JSON.json) : Prop :=
  forall n,
    n <= snd (JSON.build j n)
    /\ within n (snd (JSON.build j n)) (identities (fst (JSON.build j n))).

Lemma buildElements_new (l : list JSON.json) :
  Forall buildsNew l ->
  forall n,
    n <= snd (JSON.buildElements JSON.build l n)
    /\ within n (snd (JSON.buildElements JSON.build l n))
         (flat_map identities (fst (JSON.buildElements JSON.build l n))).
Proof.
  induction 1 as [|j l Hj _ IH]; intros n.
  - split; [apply Nat.le_refl | constructor].
  - cbn [JSON.buildElements]. destruct (Hj n) as [L1 W1].
    destruct (JSON.build j n) as [v n1]. cbn [fst snd] in *.
    destruct (IH n1) as [L2 W2].
    destruct (JSON.buildElements JSON.build l n1) as [vs n2].
    cbn [fst snd flat_map] in *. split; [lia|].
    unfold within. rewrite Forall_app. split.
    + eapply within_weaken; [| |exact W1]; lia.
    + eapply within_weaken; [| |exact W2]; lia.
Qed.

Lemma buildMembers_new (ms : list (string * JSON.json)) :
  Forall (fun m => buildsNew (snd m)) ms ->
  forall acc lo n,
    lo <= n -> within lo n (identitiesOfProps acc) ->
    n <= snd (JSON.buildMembers JSON.build ms acc n)
    /\ within lo (snd (JSON.buildMembers JSON.build ms acc n))
         (identitiesOfProps (fst (JSON.buildMembers JSON.build ms acc n))).
Proof.
  induction 1 as [|m ms Hm _ IH]; intros acc lo n Hlo Hacc.
  - split; [apply Nat.le_refl | exact Hacc].
  - cbn [JSON.buildMembers]. destruct (Hm n) as [L1 W1].
    destruct (JSON.build (snd m) n) as [v n1]. cbn [fst snd] in *.
    destruct (IH (setProp (fst m) v acc) lo n1) as [L2 W2]; [lia| |].
    + apply within_setProp.
      * eapply within_weaken; [| |exact W1]; lia.
      * eapply within_weaken; [| |exact Hacc]; lia.
    + split; [lia | exact W2].
Qed.

(** Every identity in a value that is built from a JSON text is new. *)
Lemma build_new (j : JSON.json) : buildsNew j.
Proof.
  induction j as [ |b|z|s|l IH|ms IH] using json_induction; intros n;
    try (split; [apply Nat.le_refl | constructor]).
  - cbn [JSON.build]. destruct (buildElements_new l IH (S n)) as [L W].
    destruct (JSON.buildElements JSON.build l (S n)) as [vs n'].
    cbn [fst snd identities] in *. split; [lia|].
    constructor; [lia|]. eapply within_weaken; [| |exact W]; lia.
  - cbn [JSON.build].
    destruct (buildMembers_new ms IH [] (S n) (S n) (Nat.le_refl _))
      as [L W]; [constructor|].
    destruct (JSON.buildMembers JSON.build ms [] (S n)) as [ps n'].
    cbn [fst snd identities] in *. split; [lia|].
    constructor; [lia|]. eapply within_weaken; [| |exact W]; lia.
Qed.

Lemma deepCopy_built (obj copy : value) (next next' : nat) :
  typeof obj = "object" ->
  deepCopy obj next = (Return copy, next') ->
  exists j, copy = fst (JSON.build j next) /\ next' = snd (JSON.build j next).
Proof.
  intros Ht. unfold deepCopy, JSON.parse. rewrite Ht.
  cbn [String.eqb Ascii.eqb Bool.eqb].
  destruct (JSON.stringify obj) as [t|]; [|discriminate].
  destruct (JSON.readText t) as [j r| |]; try discriminate.
  destruct (JSON.build j next) as [v n] eqn:E. intros [= <- <-].
  exists j. now rewrite E.
Qed.

(** X8. The copy shares nothing with the original: every array and object in a
    copy made by [deepCopy] is new ([next] is the first identity that was
    free), so that, when the identities of the original are the ones in use,
    no array or object of the copy is one of the original. *)
Theorem deepCopy_shares_nothing :
  forall obj next copy next',
    typeof obj = "object" ->
    withoutToJSON obj = true ->
    deepCopy obj next = (Return copy, next') ->
    within next next' (identities copy)
    /\ (Forall (fun i => i < next) (identities obj) ->
        forall i, In i (identities copy) -> ~ In i (identities obj)).
Proof.
  intros obj next copy next' Ht _ Hc.
  destruct (deepCopy_built obj copy next next' Ht Hc) as [j [-> ->]].
  destruct (build_new j next) as [_ W]. split; [exact W|].
  intros Hobj i Hi Ho. unfold within in W. rewrite Forall_forall in W, Hobj.
  specialize (W i Hi). specialize (Hobj i Ho). lia.
Qed.

Lemma deepCopy_shares_nothing_witness :
  exists copy next',
    deepCopy sampleObject 3 = (Return copy, next')
    /\ within 3 next' (identities copy)
    /\ forall i, In i (identities copy) -> ~ In i (identities sampleObject).
Proof.
  eexists. eexists. split; [vm_compute; reflexivity|].
  destruct (deepCopy_shares_nothing sampleObject 3 _ _
              eq_refl eq_refl eq_refl) as [W N].
  split; [exact W|]. apply N.
  repeat (constructor; [simpl; lia|]). constructor.
Defined.

Definition propContents (p : string * value) : string * value :=
  (fst p, contents (snd p)).

Definition memberValue (m : string * JSON.json) : string * value :=
  (fst m, valueOf (snd m)).

Lemma buildElements_contents (l : list JSON.json) :
  Forall (fun j => forall n, contents (fst (JSON.build j n)) = valueOf j) l ->
  forall n,
    map contents (fst (JSON.buildElements JSON.build l n)) = map valueOf l.
Proof.
  induction 1 as [|j l Hj _ IH]; intros n; [reflexivity|].
  cbn [JSON.buildElements]. specialize (Hj n).
  destruct (JSON.build j n) as [v n1]. specialize (IH n1).
  destruct (JSON.buildElements JSON.build l n1) as [vs n2].
  cbn [fst map] in *. now rewrite Hj, IH.
Qed.

Lemma buildMembers_contents (ms : list (string * JSON.json)) :
  Forall (fun m => forall n,
            contents (fst (JSON.build (snd m) n)) = valueOf (snd m)) ms ->
  forall acc n,
    keysOrdered (keys acc ++ keys ms)%list = true ->
    map propContents (fst (JSON.buildMembers JSON.build ms acc n))
    = (map propContents acc ++ map memberValue ms)%list.
Proof.
  induction 1 as [|[k j] ms Hm _ IH]; intros acc n Hk.
  - simpl. now rewrite app_nil_r.
  - cbn [JSON.buildMembers snd fst]. specialize (Hm n). cbn [snd] in Hm.
    destruct (JSON.build j n) as [v n1]. cbn [fst] in Hm.
    cbn [keys map fst] in Hk.
    rewrite setProp_last by (eapply keysOrdered_middle; exact Hk).
    rewrite IH.
    + rewrite map_app. cbn [map]. unfold propContents at 2.
      cbn [fst snd]. rewrite Hm. now rewrite <- app_assoc.
    + rewrite keys_app. cbn [keys map fst]. now rewrite <- app_assoc.
Qed.

(** The value that is built from the JSON text of a JavaScript value holds
    what the text says. *)
Lemma contents_build (j : JSON.json) :
  goodJson j = true ->
  forall n, contents (fst (JSON.build j n)) = valueOf j.
Proof.
  induction j as [ |b|z|s|l IH|ms IH] using json_induction;
    intros Hg n; try reflexivity.
  - cbn [goodJson] in Hg.
    pose proof (Forall_good goodJson
                  (fun j => forall n,
                     contents (fst (JSON.build j n)) = valueOf j) _ IH Hg)
      as IH'.
    pose proof (buildElements_contents l IH' (S n)) as E.
    cbn [JSON.build].
    destruct (JSON.buildElements JSON.build l (S n)) as [vs n'].
    cbn [fst contents valueOf] in *. now rewrite E.
  - cbn [goodJson] in Hg. apply andb_true_iff in Hg as [Hk Hg].
    pose proof (Forall_good (fun m => goodJson (snd m))
                  (fun m => forall n,
                     contents (fst (JSON.build (snd m) n)) = valueOf (snd m))
                  _ IH Hg) as IH'.
    pose proof (buildMembers_contents ms IH' [] (S n) Hk) as E.
    cbn [JSON.build].
    destruct (JSON.buildMembers JSON.build ms [] (S n)) as [ps n'].
    cbn [fst contents valueOf] in *. fold propContents. fold memberValue.
    now rewrite E.
Qed.



Lemma isJsonValue_valueOf (j : JSON.json) : isJsonValue (valueOf j) = true.
Proof.
  induction j as [ |b|z|s|l IH|ms IH] using json_induction;
    try reflexivity; cbn [valueOf isJsonValue].
  - induction IH as [|x l Hx _ IHl]; [reflexivity|].
    cbn [map forallb]. now rewrite Hx, IHl.
  - induction IH as [|m ms Hm _ IHm]; [reflexivity|].
    cbn [map forallb snd]. now rewrite Hm, IHm.
Qed.

Lemma isJsonValue_contents (v : value) :
  isJsonValue (contents v) = isJsonValue v.
Proof.
  induction v as [ | |b|z|s|id|id l IH|id ps IH] using value_induction;
    try reflexivity; cbn [contents isJsonValue].
  - induction IH as [|x l Hx _ IHl]; [reflexivity|].
    cbn [map forallb]. now rewrite Hx, IHl.
  - induction IH as [|p ps Hp _ IHp]; [reflexivity|].
    cbn [map forallb snd]. now rewrite Hp, IHp.
Qed.

(** X9. The copy holds neither [undefined] nor a function, and it has the JSON
    form of the original: what has no JSON form is left out of the objects
    of the copy and is [null] in its arrays. *)
Theorem deepCopy_keeps_the_json_form :
  forall obj next,
    typeof obj = "object" -> wfValue obj = true ->
    withoutToJSON obj = true ->
    exists copy next',
      deepCopy obj next = (Return copy, next')
      /\ isJsonValue copy = true
      /\ JSON.toJson copy = JSON.toJson obj.
Proof.
  intros obj next Ht Hw _.
  destruct (deepCopy_object obj next Ht Hw) as [j [Hj [Hg Hc]]].
  exists (fst (JSON.build j next)), (snd (JSON.build j next)).
  split; [exact Hc|]. split.
  - rewrite <- isJsonValue_contents, (contents_build j Hg).
    apply isJsonValue_valueOf.
  - now rewrite (toJson_build j Hg), Hj.
Qed.

Lemma deepCopy_keeps_the_json_form_witness :
  exists copy next',
    deepCopy (VObject 0 [("a", VUndefined); ("b", VArray 1 [VFunction 2])]) 3
    = (Return copy, next')
    /\ isJsonValue copy = true
    /\ JSON.toJson copy
       = JSON.toJson
           (VObject 0 [("a", VUndefined); ("b", VArray 1 [VFunction 2])]).
Proof.
  apply deepCopy_keeps_the_json_form; vm_compute; reflexivity.
Defined.



(** ** [nextTick] *)

(** X11. In Node [nextTick(fn)] gives [fn] to [process.nextTick].  Anywhere else
    it calls the [setTimeout] wrapper with the duration 0, which is not
    [null]: after any number of steps that call is still at hand, it has
    returned nothing and no timer of the platform has been given [fn], so
    [fn] is never run. *)
Theorem nextTick_outside_node_never_schedules :
  forall fn n,
    UtilsRest.nextTick true fn = UtilsRest.ProcessNextTick fn
    /\ exists m,
         UtilsRest.nextTick false fn = UtilsRest.WrapperCall m
         /\ steps n m
            = Some {| now := Call ExportsSetTimeout fn (VNumber 0);
                      waiting := repeat ExportsSetTimeout n |}
         /\ forall m', steps n m = Some m' ->
                       returned m' = None /\ callsPlatform m' = false.
Proof.
  intros fn n. split; [reflexivity|].
  exists (enter ExportsSetTimeout fn (VNumber 0)). split; [reflexivity|].
  pose proof (steps_diverge ExportsSetTimeout fn (VNumber 0)
                (or_introl eq_refl) eq_refl n []) as S.
  rewrite app_nil_r in S. split; [exact S|].
  intros m' Hm. unfold enter in Hm. rewrite S in Hm. injection Hm as <-.
  split; reflexivity.
Qed.

(** ** [trim] *)

Import UtilsRest.

Lemma stripEnd_empty (s : string) :
  stripEnd s = "" <-> all isWhiteSpace s = true.
Proof.
  induction s as [|c s IH]; simpl; [tauto|].
  destruct (stripEnd s) as [|d r] eqn:E.
  - destruct (isWhiteSpace c); simpl.
    + split; [intros _; now apply IH | reflexivity].
    + split; discriminate.
  - split; [discriminate|]. intros H. apply andb_true_iff in H as [_ H].
    apply IH in H. discriminate.
Qed.

Lemma replaceBehind_stripEnd (s : string) : replaceBehind s = stripEnd s.
Proof.
  induction s as [|c s IH]; [reflexivity|]. simpl. rewrite IH.
  destruct (all isWhiteSpace s) eqn:A.
  - rewrite (proj2 (stripEnd_empty s) A), andb_true_r.
    now destruct (isWhiteSpace c).
  - rewrite andb_false_r. destruct (stripEnd s) as [|d r] eqn:E;
      [|reflexivity].
    rewrite (proj1 (stripEnd_empty s) E) in A. discriminate.
Qed.

Lemma replaceTrim_nativeTrim (s : string) : replaceTrim s = nativeTrim s.
Proof.
  unfold replaceTrim, nativeTrim.
  destruct s as [|c r]; [reflexivity|].
  destruct (isWhiteSpace c) eqn:E; rewrite replaceBehind_stripEnd;
    [reflexivity|]. simpl stripStart. now rewrite E.
Qed.

(** X12. The replacement with the regular expression, which an engine without
    [String.prototype.trim] runs, gives what the method gives. *)
Theorem trim_fallback_agrees :
  forall inputString, trim false inputString = trim true inputString.
Proof. intros s. apply replaceTrim_nativeTrim. Qed.

Definition startsWithSpace (s : string) : bool :=
  match s with
  | String c _ => isWhiteSpace c
  | EmptyString => false
  end.

Fixpoint endsWithSpace (s : string) : bool :=
  match s with
  | EmptyString => false
  | String c EmptyString => isWhiteSpace c
  | String _ r => endsWithSpace r
  end.

Lemma stripStart_spec (s : string) :
  exists a, s = a ++ stripStart s /\ all isWhiteSpace a = true
            /\ startsWithSpace (stripStart s) = false.
Proof.
  induction s as [|c s [a [E [A S]]]]; [now exists ""|]. simpl.
  destruct (isWhiteSpace c) eqn:W.
  - exists (String c a). simpl. rewrite W, A. repeat split; trivial.
    now rewrite <- E.
  - exists "". simpl. now rewrite W.
Qed.

Lemma stripEnd_spec (s : string) :
  exists b, s = stripEnd s ++ b /\ all isWhiteSpace b = true
            /\ endsWithSpace (stripEnd s) = false
            /\ (startsWithSpace s = false ->
                startsWithSpace (stripEnd s) = false).
Proof.
  induction s as [|c s [b [E [B [L _]]]]]; [now exists ""|]. simpl.
  destruct (stripEnd s) as [|d r] eqn:S.
  - destruct (isWhiteSpace c) eqn:W.
    + exists (String c s). simpl. rewrite W.
      rewrite (proj1 (stripEnd_empty s) S). repeat split; trivial.
    + exists b. simpl in *. rewrite W. repeat split; trivial.
      now rewrite <- E.
  - exists b. simpl in *. repeat split; trivial. now rewrite <- E.
Qed.

Lemma nativeTrim_spec (s : string) :
  exists a b,
    s = a ++ nativeTrim s ++ b
    /\ all isWhiteSpace a = true /\ all isWhiteSpace b = true
    /\ startsWithSpace (nativeTrim s) = false
    /\ endsWithSpace (nativeTrim s) = false.
Proof.
  unfold nativeTrim.
  destruct (stripStart_spec s) as [a [Ea [A Sa]]].
  destruct (stripEnd_spec (stripStart s)) as [b [Eb [B [L S]]]].
  exists a, b. rewrite <- Eb. split; [exact Ea|].
  repeat split; trivial. now apply S.
Qed.

(** X13. [trim] takes the white space off both ends and nothing else: the input
    is white space, then the result, then white space, and the result
    neither begins nor ends with white space. *)
Theorem trim_removes_outer_white_space :
  forall hasTrim inputString,
    exists leading trailing,
      inputString = leading ++ trim hasTrim inputString ++ trailing
      /\ all isWhiteSpace leading = true
      /\ all isWhiteSpace trailing = true
      /\ startsWithSpace (trim hasTrim inputString) = false
      /\ endsWithSpace (trim hasTrim inputString) = false.
Proof.
  intros hasTrim s.
  assert (E : trim hasTrim s = nativeTrim s)
    by (destruct hasTrim; [reflexivity | apply replaceTrim_nativeTrim]).
  rewrite E. apply nativeTrim_spec.
Qed.

Lemma stripStart_id (s : string) :
  startsWithSpace s = false -> stripStart s = s.
Proof. destruct s as [|c r]; simpl; [reflexivity|]. now intros ->. Qed.

Lemma stripEnd_id (s : string) : endsWithSpace s = false -> stripEnd s = s.
Proof.
  induction s as [|c s IH]; [reflexivity|].
  destruct s as [|d r].
  - simpl. now intros ->.
  - intros H. change (endsWithSpace (String c (String d r)))
      with (endsWithSpace (String d r)) in H.
    change (stripEnd (String c (String d r)))
      with (match stripEnd (String d r) with
            | EmptyString =>
                if isWhiteSpace c then EmptyString else String c EmptyString
            | r' => String c r'
            end).
    now rewrite (IH H).
Qed.

Lemma nativeTrim_id (s : string) :
  startsWithSpace s = false -> endsWithSpace s = false -> nativeTrim s = s.
Proof.
  intros H1 H2. unfold nativeTrim. now rewrite (stripStart_id s H1), stripEnd_id.
Qed.

Lemma trim_nativeTrim (hasTrim : bool) (s : string) :
  trim hasTrim s = nativeTrim s.
Proof. destruct hasTrim; [reflexivity | apply replaceTrim_nativeTrim]. Qed.

(** X14. Trimming twice is trimming once, whichever way each call takes. *)
Theorem trim_is_idempotent :
  forall hasTrim hasTrim' inputString,
    trim hasTrim' (trim hasTrim inputString) = trim hasTrim inputString.
Proof.
  intros h h' s. rewrite !trim_nativeTrim.
  destruct (nativeTrim_spec s) as [a [b [_ [_ [_ [S E]]]]]].
  now apply nativeTrim_id.
Qed.

(** ** [parseUrl] and white space *)

Lemma startsWith_trailing (p a w : string) :
  all (fun c => negb (isTrimmed c)) p = true ->
  all isTrimmed w = true ->
  startsWith p (a ++ w) = startsWith p a.
Proof.
  unfold startsWith. revert a. induction p as [|c p IH]; intros a Hp Hw.
  - simpl. now destruct (a ++ w), a.
  - simpl in Hp. apply andb_true_iff in Hp as [Hc Hp].
    destruct a as [|x a]; simpl.
    + destruct w as [|d w]; [reflexivity|]. simpl in Hw.
      apply andb_true_iff in Hw as [Hd _]. simpl.
      destruct (ascii_dec c d) as [->|]; [|reflexivity].
      rewrite Hd in Hc. discriminate.
    + destruct (ascii_dec c x); [now apply IH | reflexivity].
Qed.

Lemma trimEnd_trailing (x w : string) :
  all isTrimmed w = true -> trimEnd (x ++ w) = trimEnd x.
Proof.
  intros Hw. induction x as [|c x IH].
  - simpl. induction w as [|d w IHw]; [reflexivity|]. simpl in *.
    apply andb_true_iff in Hw as [Hd Hw]. now rewrite (IHw Hw), Hd.
  - simpl. now rewrite IH.
Qed.

Lemma unsupportedProtocol_trailing (input w : string) :
  all isTrimmed w = true ->
  unsupportedProtocol (input ++ w) = unsupportedProtocol input.
Proof.
  intros Hw. unfold unsupportedProtocol.
  now rewrite !startsWith_trailing by (trivial; reflexivity).
Qed.

Lemma urlToParse_trailing (input w : string) :
  all isTrimmed w = true ->
  urlToParse (input ++ w) = urlToParse input ++ w.
Proof.
  intros Hw. unfold urlToParse, hasUrlProtocol.
  rewrite !startsWith_trailing by (trivial; reflexivity).
  destruct (negb _); [reflexivity|]. now destruct (startsWith "//" input).
Qed.

Lemma parse_trailing pf (input w : string) :
  all isTrimmed w = true ->
  URL.parse pf (urlToParse input ++ w) = URL.parse pf (urlToParse input).
Proof.
  intros Hw. destruct (urlToParse_scheme input) as [x [-> | ->]];
    rewrite append_assoc.
  - now rewrite !parse_ws, trimEnd_trailing.
  - now rewrite !parse_wss, trimEnd_trailing.
Qed.

(** X15. White space behind the input does not count: [parseUrl] gives for an
    input followed by spaces, tabs, line ends, form feeds or no-break spaces
    what it gives for the input alone, a URL or a failure. *)
Theorem parseUrl_ignores_trailing_white_space :
  forall pf input space defaultPath,
    all isTrimmed space = true ->
    parseUrl pf (input ++ space) defaultPath = parseUrl pf input defaultPath.
Proof.
  intros pf input w dp Hw.
  destruct (unsupportedProtocol input) eqn:E.
  - rewrite !parseUrl_unsupported; trivial.
    now rewrite unsupportedProtocol_trailing.
  - rewrite !parseUrl_supported; trivial;
      [|now rewrite unsupportedProtocol_trailing].
    now rewrite urlToParse_trailing, parse_trailing.
Qed.

Lemma parseUrl_ignores_trailing_white_space_witness :
  parseUrl samplePlatform ("example.com" ++ "  ") "/socket"
  = parseUrl samplePlatform "example.com" "/socket".
Proof.
  apply parseUrl_ignores_trailing_white_space. reflexivity.
Defined.

Lemma any_at_trimEnd (s : string) :
  any (codeIs 64) s = false -> any (codeIs 64) (trimEnd s) = false.
Proof.
  induction s as [|c s IH]; simpl; [trivial|]. intros H.
  apply orb_false_iff in H as [Hc Hs]. specialize (IH Hs).
  destruct (trimEnd s); [destruct (isTrimmed c)|]; simpl in *;
    rewrite ?Hc, ?IH; reflexivity.
Qed.

Lemma any_at_convertBackslashes (s : string) :
  any (codeIs 64) s = false ->
  any (codeIs 64) (convertBackslashes s) = false.
Proof.
  induction s as [|c s IH]; simpl; [trivial|]. intros H.
  apply orb_false_iff in H as [Hc Hs].
  destruct (isSplit c); simpl; [now rewrite Hc, Hs|].
  rewrite (IH Hs). destruct (codeIs 92 c); [reflexivity|].
  now rewrite Hc.
Qed.

(** Without an at sign the end of the host, once it is found, stays. *)
Lemma scanHost_no_at (s : string) (i n : nat) :
  any (codeIs 64) s = false ->
  scanHost s i None (Some n) = (None, Some n).
Proof.
  revert i. induction s as [|c s IH]; intros i; simpl; [reflexivity|].
  intros H. apply orb_false_iff in H as [Hc Hs].
  destruct (isHostEnding c); [reflexivity|].
  destruct (isNeverHost c); [now apply IH|]. rewrite Hc. now apply IH.
Qed.

Lemma any_at_stripInHost (s : string) :
  any (codeIs 64) s = false -> any (codeIs 64) (stripInHost s) = false.
Proof.
  induction s as [|c s IH]; simpl; [trivial|]. intros H.
  apply orb_false_iff in H as [Hc Hs]. specialize (IH Hs).
  destruct (isHostEnding c); [simpl; now rewrite Hc, Hs|].
  destruct (isTabOrLineEnd c); [exact IH|]. simpl. now rewrite Hc, IH.
Qed.

(** An authority that is empty, or begins with a space and has no at sign,
    has no host. *)
Lemma parseAuthority_no_host pf (rest : string) :
  rest = "" \/ (exists r, rest = String " " r /\ any (codeIs 64) r = false) ->
  exists a, parseAuthority pf rest = Return a /\ a_host a = "".
Proof.
  intros [-> | [r [-> Hr]]].
  - unfold parseAuthority. destruct (stripsTabs pf);
      eexists; split; reflexivity.
  - assert (H : forall y, any (codeIs 64) y = false ->
                  scanHost (String " " y) 0 None None = (None, Some 0))
      by (intros y Hy; simpl; now apply scanHost_no_at).
    unfold parseAuthority. destruct (stripsTabs pf).
    + change (stripInHost (String " " r)) with (String " " (stripInHost r)).
      rewrite (H _ (any_at_stripInHost _ Hr)).
      eexists. split; reflexivity.
    + rewrite (H _ Hr). eexists. split; reflexivity.
Qed.

Lemma afterProtocol_ws_host pf (rest : string) (a : Authority) :
  parseAuthority pf rest = Return a ->
  exists u,
    afterProtocol pf (Some "ws:") ("//" ++ rest) = Return u
    /\ host u = Some (a_host a).
Proof.
  intros H. unfold afterProtocol. rewrite startsWith_append.
  change (drop 2 ("//" ++ rest)) with rest.
  cbn [truthy nonEmpty hostlessProtocol slashedProtocol inTable existsb
       String.eqb Ascii.eqb Bool.eqb andb orb negb option_map].
  rewrite H. cbn [bind].
  destruct (break (codeIs 35) _), (break (codeIs 63) _).
  eexists. split; reflexivity.
Qed.

(** X16. A space in front of the input is not taken off: an input that
    begins with a space and has no at sign makes [parseUrl] throw "invalid
    url, missing host". *)
Theorem parseUrl_rejects_leading_white_space :
  forall pf rest defaultPath,
    any (codeIs 64) rest = false ->
    parseUrl pf (String " " rest) defaultPath = Throw InvalidUrlError.
Proof.
  intros pf rest dp Hat.
  rewrite parseUrl_supported by reflexivity.
  change (urlToParse (String " " rest))
    with ("ws:" ++ String "/" (String "/" (String " " rest))).
  rewrite parse_ws, !trimEnd_cons by reflexivity.
  set (y := convertBackslashes (trimEnd (String " " rest))).
  change (convertBackslashes
            (String "/" (String "/" (trimEnd (String " " rest)))))
    with ("//" ++ y).
  assert (Hy : y = ""
               \/ exists r, y = String " " r /\ any (codeIs 64) r = false).
  { unfold y. simpl trimEnd.
    pose proof (any_at_convertBackslashes _ (any_at_trimEnd _ Hat)) as Hno.
    destruct (trimEnd rest) as [|d r]; [now left|].
    right. exists (convertBackslashes (String d r)). now split. }
  destruct (parseAuthority_no_host pf y Hy) as [a [Ha Hh]].
  destruct (afterProtocol_ws_host pf y a Ha) as [u [Eu Hu']].
  rewrite Eu. cbn [bind]. now rewrite Hu', Hh.
Qed.

Lemma parseUrl_rejects_leading_white_space_witness :
  parseUrl samplePlatform " example.com" "/socket" = Throw InvalidUrlError
  /\ parseUrl modernPlatform " example.com:9000/x" ""
     = Throw InvalidUrlError.
Proof.
  split; apply parseUrl_rejects_leading_white_space; reflexivity.
Defined.

(** ** The scheme of the result *)

Lemma urlToParse_wss rest : urlToParse ("wss:" ++ rest) = "wss:" ++ rest.
Proof.
  unfold urlToParse, hasUrlProtocol. now rewrite startsWith_append.
Qed.

Lemma urlToParse_not_wss input :
  startsWith "wss:" input = false ->
  exists x, urlToParse input = "ws:" ++ x.
Proof.
  intros E1. unfold urlToParse, hasUrlProtocol. rewrite E1.
  destruct (startsWith "ws:" input) eqn:E2.
  - apply startsWith_inv in E2 as [r ->]. exists r. reflexivity.
  - destruct (startsWith "//" input); simpl; eexists; reflexivity.
Qed.

(** [URL.format] writes the protocol first. *)
Lemma format_starts pf u scheme :
  scheme = "ws:" \/ scheme = "wss:" ->
  protocol u = Some scheme ->
  startsWith scheme (URL.format pf u) = true.
Proof.
  intros Hs Hp. unfold URL.format. rewrite Hp.
  destruct Hs as [-> | ->]; cbn [orEmpty nonEmpty endsWithChar andb negb];
    match goal with
    | |- context [if ?b then _ else (?h, ?p)] => destruct b
    end; try match goal with
    | |- context [if ?b then (_, _) else _] => destruct b
    end; try match goal with
    | |- context [if ?b then (_, _) else _] => destruct b
    end; apply startsWith_append.
Qed.

(** X17. The scheme of the string that [parseUrl] returns follows the input: it
    is [wss:] when the input begins with [wss:], and [ws:] for every other
    input. *)
Theorem parseUrl_scheme_follows_input :
  forall pf input defaultPath s,
    parseUrl pf input defaultPath = Return s ->
    startsWith (if startsWith "wss:" input then "wss:" else "ws:") s = true.
Proof.
  intros pf input dp s H.
  apply parseUrl_Return in H as [_ [u0 [Hp [_ [_ ->]]]]].
  destruct (startsWith "wss:" input) eqn:E.
  - apply startsWith_inv in E as [r ->].
    rewrite urlToParse_wss, parse_wss in Hp.
    apply afterProtocol_protocol in Hp. simpl in Hp.
    apply format_starts; [now right|]. simpl. now rewrite Hp.
  - destruct (urlToParse_not_wss input E) as [x Hx].
    rewrite Hx, parse_ws in Hp.
    apply afterProtocol_protocol in Hp. simpl in Hp.
    apply format_starts; [now left|]. simpl. now rewrite Hp.
Qed.

Lemma parseUrl_scheme_follows_input_witness :
  parseUrl samplePlatform "wss://example.com" "/socket"
  = Return "wss://example.com/socket"
  /\ startsWith "wss:" "wss://example.com/socket" = true.
Proof.
  split; [reflexivity|].
  apply (parseUrl_scheme_follows_input samplePlatform
           "wss://example.com" "/socket" "wss://example.com/socket").
  reflexivity.
Defined.
